(** * Open-Face-Blur: the region ledger, detection cache, blur compositor
      and export pipeline

    A shallow embedding of [src/core/blur_manager.py],
    [src/core/video_processor.py] and of the two handlers of
    [src/ui/face_blur_ui.py] that write to the ledger.

    Python integers are [Z]; a region is the 6-tuple the code stores;
    the per-frame dictionaries are [gmap Z _], where an absent key and
    an empty list are different things, as in Python.  Methods that only
    touch the ledger are functions on the [BlurManager] record; methods
    that call into OpenCV or the detector run in a small state and
    exception monad, since those collaborators can raise. *)

From stdpp Require Import gmap list strings.
From Stdlib Require Import ZArith Lia.

Local Open Scope Z_scope.

(** ** Regions *)

(** [(x1, y1, x2, y2, sigma, ksize)] *)
Abbreviation Region := (Z * Z * Z * Z * Z * Z)%type.

(** [(x1, y1, x2, y2)], one row of the detector's integer box array *)
Abbreviation Box := (Z * Z * Z * Z)%type.

Definition coords (r : Region) : Box :=
  let '(x1, y1, x2, y2, _, _) := r in (x1, y1, x2, y2).

Definition sigma_of (r : Region) : Z :=
  let '(_, _, _, _, sigma, _) := r in sigma.

Definition ksize_of (r : Region) : Z :=
  let '(_, _, _, _, _, ksize) := r in ksize.

(** [ksize if ksize % 2 == 1 else ksize + 1]; Python's [%] with a positive
    divisor is the floor modulus, which is [Z.modulo]. *)
Definition ensure_odd (ksize : Z) : Z :=
  if ksize mod 2 =? 1 then ksize else ksize + 1.

(** ** Exceptions and the state monad of the effectful methods *)

Inductive exn : Type :=
| AttributeError (attr : string)
| ExternalError (origin : string) (code : Z).

Inductive outcome (A : Type) : Type :=
| Ok (a : A)
| Raise (e : exn).
Arguments Ok {A} a.
Arguments Raise {A} e.

Definition M (S A : Type) : Type := S -> S * outcome A.

Definition ret {S A} (a : A) : M S A := fun s => (s, Ok a).
Definition bind {S A B} (m : M S A) (k : A -> M S B) : M S B :=
  fun s => match m s with
           | (s1, Ok a) => k a s1
           | (s1, Raise e) => (s1, Raise e)
           end.
Definition gets {S A} (f : S -> A) : M S A := fun s => (s, Ok (f s)).
Definition modify {S} (f : S -> S) : M S unit := fun s => (f s, Ok tt).
Definition lift_outcome {S A} (r : outcome A) : M S A := fun s => (s, r).

(** Run a method of a component object inside the object that holds it. *)
Definition zoom {S T A} (proj : S -> T) (upd : T -> S -> S) (m : M T A) : M S A :=
  fun s => match m (proj s) with (t1, r) => (upd t1 s, r) end.

(** [try: body finally: fin].  The [finally] block runs on every exit of
    [body]; an exception of [body] is re-raised after it, unless [fin]
    raises one of its own, which then replaces it. *)
Definition try_finally {S A} (body : M S A) (fin : M S unit) : M S A :=
  fun s => match body s with
           | (s1, r) =>
               match fin s1 with
               | (s2, Ok _) => (s2, r)
               | (s2, Raise e) => (s2, Raise e)
               end
           end.

Notation "'let*' x ':=' m 'in' k" := (bind m (fun x => k))
  (at level 10, x pattern, m at level 100, k at level 200).
Notation "m '>>' k" := (bind m (fun _ => k))
  (at level 100, k at level 200, right associativity).

(** [for i in l: body(i)] *)
Fixpoint for_each {S I} (l : list I) (body : I -> M S unit) : M S unit :=
  match l with
  | [] => ret tt
  | i :: l' => body i >> for_each l' body
  end.

(** ** The OpenCV and numpy operations the compositor calls

    Frames are numpy arrays; what OpenCV computes on them is outside the
    program, so the operations are the fields of an interface.
    [GaussianBlur] can raise ([cv2.error] on an empty source or on a
    kernel size that is not positive). *)
Class Cv2 (Frame : Type) : Type := {
  (** the value of [a[y1:y2, x1:x2]] *)
  slice : Frame -> Z -> Z -> Z -> Z -> Frame;
  (** [a[y1:y2, x1:x2] = b] *)
  slice_assign : Frame -> Z -> Z -> Z -> Z -> Frame -> Frame;
  (** [cv2.GaussianBlur(src, (kw, kh), sigma)] *)
  GaussianBlur : Frame -> Z * Z -> Z -> outcome Frame;
  (** [cv2.rectangle] and the two [cv2.putText] calls that outline and
      label one region, given the label and the BGR colour *)
  draw_region : Frame -> string -> Z * Z * Z -> Region -> Frame;
}.

(** ** The region ledger: [class BlurManager] *)

Module BlurManager.

Record t : Type := mk {
  blur_regions : list Region;
  manual_regions : gmap Z (list Region);
  detected_regions : gmap Z (list Region);
  all_blurred : bool;
  default_sigma : Z;
  default_ksize : Z;
  blurred_face_indices : gset Z;
  current_frame_idx : Z;
}.

Definition set_manual_regions (m : gmap Z (list Region)) (s : t) : t :=
  mk (blur_regions s) m (detected_regions s) (all_blurred s)
     (default_sigma s) (default_ksize s) (blurred_face_indices s)
     (current_frame_idx s).

Definition set_detected_regions (m : gmap Z (list Region)) (s : t) : t :=
  mk (blur_regions s) (manual_regions s) m (all_blurred s)
     (default_sigma s) (default_ksize s) (blurred_face_indices s)
     (current_frame_idx s).

Definition set_current_frame_idx (i : Z) (s : t) : t :=
  mk (blur_regions s) (manual_regions s) (detected_regions s) (all_blurred s)
     (default_sigma s) (default_ksize s) (blurred_face_indices s) i.

(** [__init__] *)
Definition init : t :=
  mk [] ∅ ∅ true 30 31 ∅ 0.

(** [reset]: the defaults and [current_frame_idx] are not assigned. *)
Definition reset (s : t) : t :=
  mk [] ∅ ∅ true (default_sigma s) (default_ksize s) ∅ (current_frame_idx s).

(** [add_manual_region_to_frame] *)
Definition add_manual_region_to_frame
    (s : t) (frame_idx x1 y1 x2 y2 sigma ksize : Z) : t :=
  let m :=
    match manual_regions s !! frame_idx with
    | None => <[frame_idx := []]> (manual_regions s)
    | Some _ => manual_regions s
    end in
  set_manual_regions
    (<[frame_idx := default [] (m !! frame_idx) ++ [(x1, y1, x2, y2, sigma, ksize)]]> m)
    s.

(** The body of both loops of [update_blur_params]:
    [x1, y1, x2, y2, _, _ = l[i]; l[i] = (x1, y1, x2, y2, sigma, ksize)]. *)
Definition restamp (sigma ksize : Z) (r : Region) : Region :=
  let '(x1, y1, x2, y2, _, _) := r in (x1, y1, x2, y2, sigma, ksize).

(** [for i in range(len(l)): l[i] = restamp(l[i])] *)
Definition restamp_list (sigma ksize : Z) (l : list Region) : list Region :=
  foldl (fun acc i =>
           match acc !! i with
           | Some r => <[i := restamp sigma ksize r]> acc
           | None => acc
           end)
        l (seq 0 (length l)).

(** [update_blur_params]: the flat [blur_regions] list and every list of
    [manual_regions] are rewritten; [detected_regions] is not visited. *)
Definition update_blur_params (s : t) (sigma ksize : Z) : t :=
  mk (restamp_list sigma ksize (blur_regions s))
     (restamp_list sigma ksize <$> manual_regions s)
     (detected_regions s) (all_blurred s)
     sigma ksize (blurred_face_indices s) (current_frame_idx s).

(** [i in m and len(m[i]) > 0] *)
Definition has_regions (m : gmap Z (list Region)) (i : Z) : bool :=
  match m !! i with
  | Some l => bool_decide (0 < length l)%nat
  | None => false
  end.

(** [for region in src: if region not in dst: dst.append(region)] *)
Definition append_missing (src dst : list Region) : list Region :=
  foldl (fun d region => if decide (region ∈ d) then d else d ++ [region]) dst src.

(** One [if has_...:] block of [copy_regions_to_next_frame]. *)
Definition copy_collection (m : gmap Z (list Region)) (cur next : Z)
    : gmap Z (list Region) :=
  let m1 :=
    match m !! next with
    | None => <[next := []]> m
    | Some _ => m
    end in
  <[next := append_missing (default [] (m1 !! cur)) (default [] (m1 !! next))]> m1.

(** [copy_regions_to_next_frame] *)
Definition copy_regions_to_next_frame (s : t) : bool * t :=
  let next_frame_idx := current_frame_idx s + 1 in
  let has_manual := has_regions (manual_regions s) (current_frame_idx s) in
  let has_detected := has_regions (detected_regions s) (current_frame_idx s) in
  if negb (has_manual || has_detected) then (false, s)
  else
    let s1 :=
      if has_manual
      then set_manual_regions
             (copy_collection (manual_regions s) (current_frame_idx s) next_frame_idx) s
      else s in
    let s2 :=
      if has_detected
      then set_detected_regions
             (copy_collection (detected_regions s1) (current_frame_idx s1) next_frame_idx) s1
      else s1 in
    (true, s2).

(** [toggle_all_blur] *)
Definition toggle_all_blur (s : t) : t :=
  mk (blur_regions s) (manual_regions s) (detected_regions s) (negb (all_blurred s))
     (default_sigma s) (default_ksize s) (blurred_face_indices s)
     (current_frame_idx s).

(** [x1 <= x <= x2 and y1 <= y <= y2] *)
Definition contains_point (x y : Z) (region : Region) : bool :=
  let '(x1, y1, x2, y2, _, _) := region in
  bool_decide (x1 <= x <= x2) && bool_decide (y1 <= y <= y2).

(** The index at which the [for i, region in enumerate(l)] loop of
    [toggle_region] stops, counted from [i]. *)
Fixpoint first_hit (x y : Z) (l : list Region) (i : nat) : option nat :=
  match l with
  | [] => None
  | region :: l' =>
      if contains_point x y region then Some i else first_hit x y l' (S i)
  end.

(** One [if self.current_frame_idx in m:] block of [toggle_region]: the
    collection after [m[idx].pop(i)], when the loop finds an [i]. *)
Definition pop_hit (m : gmap Z (list Region)) (idx x y : Z)
    : option (gmap Z (list Region)) :=
  match m !! idx with
  | Some l =>
      match first_hit x y l 0 with
      | Some i => Some (<[idx := delete i l]> m)
      | None => None
      end
  | None => None
  end.

(** [toggle_region]; the argument [detected_faces] is not read. *)
Definition toggle_region (s : t) (x y : Z) (detected_faces : option (list Box))
    : bool * t :=
  match pop_hit (detected_regions s) (current_frame_idx s) x y with
  | Some m => (true, set_detected_regions m s)
  | None =>
      match pop_hit (manual_regions s) (current_frame_idx s) x y with
      | Some m => (true, set_manual_regions m s)
      | None => (false, s)
      end
  end.

(** [is_face_blurred] *)
Definition is_face_blurred (s : t) (face_idx : Z) : bool :=
  bool_decide (face_idx ∈ blurred_face_indices s).

(** *** The compositor *)

Section Compositor.
Context {Frame : Type} `{!Cv2 Frame}.

(** The body of both loops of [apply_blur]. *)
Definition blur_region (result : Frame) (r : Region) : outcome Frame :=
  let '(x1, y1, x2, y2, sigma, ksize) := r in
  let ksize := ensure_odd ksize in
  let region := slice result y1 y2 x1 x2 in
  match GaussianBlur region (ksize, ksize) sigma with
  | Ok blurred => Ok (slice_assign result y1 y2 x1 x2 blurred)
  | Raise e => Raise e
  end.

(** [for x1, y1, x2, y2, sigma, ksize in l: ...] *)
Fixpoint blur_each (result : Frame) (l : list Region) : outcome Frame :=
  match l with
  | [] => Ok result
  | r :: l' =>
      match blur_region result r with
      | Ok result' => blur_each result' l'
      | Raise e => Raise e
      end
  end.

(** [frame_idx in m], where [frame_idx] may be [None]: the collection to
    walk, if the test succeeds. *)
Definition regions_at (m : gmap Z (list Region)) (frame_idx : option Z)
    : list Region :=
  match frame_idx with
  | Some i => default [] (m !! i)
  | None => []
  end.

(** [apply_blur(frame, detected_faces, frame_idx=None)] on array values:
    [result = frame.copy()] is [frame] itself here; the object-level
    reading, with the copy, is [apply_blur_obj] below. *)
Definition apply_blur (frame : Frame) (detected_faces : option (list Box))
    (frame_idx : option Z) : M t Frame :=
  fun self =>
    let result := frame in
    let self :=
      match frame_idx with
      | Some i => set_current_frame_idx i self
      | None => self
      end in
    match blur_each result (regions_at (detected_regions self) frame_idx) with
    | Raise e => (self, Raise e)
    | Ok result =>
        match blur_each result (regions_at (manual_regions self) frame_idx) with
        | Raise e => (self, Raise e)
        | Ok result => (self, Ok result)
        end
    end.

(** **** The same method on array objects

    numpy arrays are mutable objects.  A store maps the reference of
    every live array to its contents; [frame.copy()] allocates, and the
    slice assignment writes through the reference [result] only. *)
Definition store : Type := list Frame.

Definition copy (frame : nat) : M store nat :=
  fun h => match h !! frame with
           | Some a => (h ++ [a], Ok (length h))
           | None => (h, Raise (AttributeError "copy"))
           end.

(** [region = result[y1:y2, x1:x2]; blurred = cv2.GaussianBlur(...);
    result[y1:y2, x1:x2] = blurred] for each region of [l] *)
Fixpoint blur_each_obj (result : nat) (l : list Region) : M store unit :=
  match l with
  | [] => ret tt
  | r :: l' =>
      fun h =>
        match h !! result with
        | None => (h, Raise (AttributeError "result"))
        | Some a =>
            match blur_region a r with
            | Raise e => (h, Raise e)
            | Ok a' => blur_each_obj result l' (<[result := a']> h)
            end
        end
  end.

Definition apply_blur_obj (frame : nat) (detected_faces : option (list Box))
    (frame_idx : option Z) : M (t * store) nat :=
  let* result := zoom snd (fun h s => (s.1, h)) (copy frame) in
  (match frame_idx with
   | Some i => modify (fun s => (set_current_frame_idx i s.1, s.2))
   | None => ret tt
   end) >>
  let* self := gets fst in
  zoom snd (fun h s => (s.1, h))
       (blur_each_obj result (regions_at (detected_regions self) frame_idx)) >>
  zoom snd (fun h s => (s.1, h))
       (blur_each_obj result (regions_at (manual_regions self) frame_idx)) >>
  ret result.

End Compositor.

End BlurManager.

(** ** The video source and sink

    [cv2.VideoCapture]: [decode i] is the frame a read at position [i]
    yields, [None] when the read fails.  [cv2.VideoWriter]: [written]
    records the frames passed to [write], in order. *)

Record VideoCapture (Frame Float : Type) : Type := mkCapture {
  isOpened : bool;
  CAP_PROP_FRAME_COUNT : Z;
  CAP_PROP_FPS : Float;
  CAP_PROP_FRAME_WIDTH : Z;
  CAP_PROP_FRAME_HEIGHT : Z;
  CAP_PROP_POS_FRAMES : Z;
  decode : Z -> option Frame;
}.
Arguments mkCapture {Frame Float}.
Arguments isOpened {Frame Float}.
Arguments CAP_PROP_FRAME_COUNT {Frame Float}.
Arguments CAP_PROP_FPS {Frame Float}.
Arguments CAP_PROP_FRAME_WIDTH {Frame Float}.
Arguments CAP_PROP_FRAME_HEIGHT {Frame Float}.
Arguments CAP_PROP_POS_FRAMES {Frame Float}.
Arguments decode {Frame Float}.

Record VideoWriter (Frame : Type) : Type := mkWriter {
  writer_opened : bool;
  written : list Frame;
  released : bool;
}.
Arguments mkWriter {Frame}.
Arguments writer_opened {Frame}.
Arguments written {Frame}.
Arguments released {Frame}.

Section Video.
Context {Frame Float : Type}.

(** [cap.set(cv2.CAP_PROP_POS_FRAMES, i)] *)
Definition cap_set_pos (c : VideoCapture Frame Float) (i : Z)
    : VideoCapture Frame Float :=
  mkCapture (isOpened c) (CAP_PROP_FRAME_COUNT c) (CAP_PROP_FPS c)
            (CAP_PROP_FRAME_WIDTH c) (CAP_PROP_FRAME_HEIGHT c) i (decode c).

(** [ret, frame = cap.read()]: a successful read advances the cursor. *)
Definition cap_read (c : VideoCapture Frame Float)
    : VideoCapture Frame Float * option Frame :=
  if isOpened c then
    match decode c (CAP_PROP_POS_FRAMES c) with
    | Some frame => (cap_set_pos c (CAP_PROP_POS_FRAMES c + 1), Some frame)
    | None => (c, None)
    end
  else (c, None).

(** [out.write(frame)] *)
Definition writer_write (frame : Frame) (w : VideoWriter Frame) : VideoWriter Frame :=
  mkWriter (writer_opened w) (written w ++ [frame]) (released w).

(** [out.release()] *)
Definition writer_release (w : VideoWriter Frame) : VideoWriter Frame :=
  mkWriter (writer_opened w) (written w) true.

End Video.

(** The collaborators of the processor: the face detector (MTCNN behind
    [FaceDetector.detect_faces], which returns the boxes above the
    confidence threshold or [None], and can raise), and the two OpenCV
    constructors, whose outcome depends on the files and codecs of the
    machine. *)
Class Collaborators (Frame Float : Type) : Type := {
  face_detector_detect_faces : Frame -> outcome (option (list Box));
  cv2_VideoCapture : string -> VideoCapture Frame Float;
  (** whether [cv2.VideoWriter(path, fourcc, fps, (width, height))] opens *)
  cv2_VideoWriter : string -> string -> Float -> Z * Z -> bool;
}.

(** ** [class FaceDetector]

    [detect_faces] filters what MTCNN returns.  MTCNN, the colour
    conversion, the comparison of a score with the threshold and the
    conversion of a box to integers work on floating-point arrays and
    are taken as given; the filtering is the code's.  [boxes[mask]] with
    a mask of another length than [boxes] is an [IndexError]. *)

Module FaceDetector.

Section Detector.
Context {Frame RawBox Prob : Type}.

(** [cv2.cvtColor(frame, cv2.COLOR_BGR2RGB)] *)
Variable cvtColor : Frame -> Frame.

(** [self.detector.detect(rgb_frame)]: [None] stands for MTCNN's answer
    without faces, [(None, [None])]; otherwise the box and the score
    arrays. *)
Variable detector_detect : Frame -> outcome (option (list RawBox * list Prob)).

(** [p >= self.confidence_threshold] on one score *)
Variable at_least_threshold : Prob -> bool.

(** [astype(int)] on one row *)
Variable astype_int : RawBox -> Box.

(** [a[mask]] for a boolean [mask] of the length of [a] *)
Fixpoint select {A} (a : list A) (mask : list bool) : list A :=
  match a, mask with
  | x :: a', b :: mask' => if b then x :: select a' mask' else select a' mask'
  | _, _ => []
  end.

(** [detect_faces] *)
Definition detect_faces (frame : Frame)
    : outcome (option (list Box) * option (list Prob)) :=
  let rgb_frame := cvtColor frame in
  match detector_detect rgb_frame with
  | Raise e => Raise e
  | Ok None => Ok (None, None)
  | Ok (Some (boxes, probs)) =>
      if bool_decide (0 < length boxes)%nat then
        let mask := at_least_threshold <$> probs in
        if bool_decide (length mask = length boxes) then
          let boxes := select boxes mask in
          let probs := select probs mask in
          let boxes := astype_int <$> boxes in
          Ok (Some boxes, Some probs)
        else Raise (ExternalError "IndexError" 0)
      else Ok (None, None)
  end.

End Detector.

End FaceDetector.

(** ** [class VideoProcessor] *)

Module VideoProcessor.

Section Processor.
Context {Frame Float : Type} `{!Cv2 Frame} `{!Collaborators Frame Float}.

(** [fps], [width] and [height] are attributes that exist only once
    [open_video] has passed its [isOpened] test.  [detector_calls] is
    not a field of the Python object: it records, in order, the frames
    the detector was called on. *)
Record t : Type := mk {
  blur_manager : BlurManager.t;
  cap : option (VideoCapture Frame Float);
  frame_count : Z;
  current_frame_idx : Z;
  current_frame : option Frame;
  detected_faces : option (list Box);
  processed_frames : gmap Z Frame;
  detection_results : gmap Z (option (list Box));
  detect_faces : bool;
  fps : option Float;
  width : option Z;
  height : option Z;
  detector_calls : list Frame;
}.

Definition set_blur_manager (bm : BlurManager.t) (s : t) : t :=
  mk bm (cap s) (frame_count s) (current_frame_idx s) (current_frame s)
     (detected_faces s) (processed_frames s) (detection_results s)
     (detect_faces s) (fps s) (width s) (height s) (detector_calls s).

Definition set_cap (c : option (VideoCapture Frame Float)) (s : t) : t :=
  mk (blur_manager s) c (frame_count s) (current_frame_idx s) (current_frame s)
     (detected_faces s) (processed_frames s) (detection_results s)
     (detect_faces s) (fps s) (width s) (height s) (detector_calls s).

Definition set_video_info (n : Z) (f : Float) (w h : Z) (s : t) : t :=
  mk (blur_manager s) (cap s) n (current_frame_idx s) (current_frame s)
     (detected_faces s) (processed_frames s) (detection_results s)
     (detect_faces s) (Some f) (Some w) (Some h) (detector_calls s).

Definition set_current_frame_idx (i : Z) (s : t) : t :=
  mk (blur_manager s) (cap s) (frame_count s) i (current_frame s)
     (detected_faces s) (processed_frames s) (detection_results s)
     (detect_faces s) (fps s) (width s) (height s) (detector_calls s).

Definition set_current_frame (frame : Frame) (s : t) : t :=
  mk (blur_manager s) (cap s) (frame_count s) (current_frame_idx s) (Some frame)
     (detected_faces s) (processed_frames s) (detection_results s)
     (detect_faces s) (fps s) (width s) (height s) (detector_calls s).

Definition set_detected_faces (d : option (list Box)) (s : t) : t :=
  mk (blur_manager s) (cap s) (frame_count s) (current_frame_idx s) (current_frame s)
     d (processed_frames s) (detection_results s)
     (detect_faces s) (fps s) (width s) (height s) (detector_calls s).

Definition set_processed_frames (m : gmap Z Frame) (s : t) : t :=
  mk (blur_manager s) (cap s) (frame_count s) (current_frame_idx s) (current_frame s)
     (detected_faces s) m (detection_results s)
     (detect_faces s) (fps s) (width s) (height s) (detector_calls s).

Definition set_detection_results (m : gmap Z (option (list Box))) (s : t) : t :=
  mk (blur_manager s) (cap s) (frame_count s) (current_frame_idx s) (current_frame s)
     (detected_faces s) (processed_frames s) m
     (detect_faces s) (fps s) (width s) (height s) (detector_calls s).

Definition set_detect_faces (b : bool) (s : t) : t :=
  mk (blur_manager s) (cap s) (frame_count s) (current_frame_idx s) (current_frame s)
     (detected_faces s) (processed_frames s) (detection_results s)
     b (fps s) (width s) (height s) (detector_calls s).

Definition log_detector_call (frame : Frame) (s : t) : t :=
  mk (blur_manager s) (cap s) (frame_count s) (current_frame_idx s) (current_frame s)
     (detected_faces s) (processed_frames s) (detection_results s)
     (detect_faces s) (fps s) (width s) (height s) (detector_calls s ++ [frame]).

(** [__init__] *)
Definition init (bm : BlurManager.t) : t :=
  mk bm None 0 0 None None ∅ ∅ true None None None [].

(** [boxes, probs = self.face_detector.detect_faces(frame);
     self.detection_results[idx] = boxes; self.detected_faces = boxes] *)
Definition detect_and_store (frame : Frame) (idx : Z) : M t unit :=
  fun self =>
    let self := log_detector_call frame self in
    match face_detector_detect_faces frame with
    | Raise e => (self, Raise e)
    | Ok boxes =>
        let self := set_detection_results (<[idx := boxes]> (detection_results self)) self in
        (set_detected_faces boxes self, Ok tt)
    end.

(** [open_video] *)
Definition open_video (video_path : string) : M t bool :=
  fun self =>
    let c := cv2_VideoCapture video_path in
    let self := set_cap (Some c) self in
    if negb (isOpened c) then (self, Ok false)
    else
      let self :=
        set_video_info (CAP_PROP_FRAME_COUNT c) (CAP_PROP_FPS c)
                       (CAP_PROP_FRAME_WIDTH c) (CAP_PROP_FRAME_HEIGHT c) self in
      let self := set_current_frame_idx 0 self in
      let self := set_processed_frames ∅ self in
      let self := set_detection_results ∅ self in
      let self := set_detected_faces None self in
      let '(c, r) := cap_read c in
      let self := set_cap (Some c) self in
      match r with
      | Some frame =>
          let self := set_current_frame frame self in
          let self := set_current_frame_idx 0 self in
          let self :=
            set_blur_manager
              (BlurManager.set_current_frame_idx 0 (blur_manager self)) self in
          if detect_faces self then
            match detect_and_store frame 0 self with
            | (self, Raise e) => (self, Raise e)
            | (self, Ok _) => (self, Ok true)
            end
          else (self, Ok true)
      | None => (self, Ok true)
      end.

(** [get_frame] *)
Definition get_frame (frame_idx : Z) : M t (option Frame) :=
  fun self =>
    match cap self with
    | None => (self, Ok None)
    | Some c =>
        if bool_decide (frame_idx < 0) || bool_decide (frame_idx >= frame_count self)
        then (self, Ok None)
        else
          let c := cap_set_pos c frame_idx in
          let '(c, r) := cap_read c in
          let self := set_cap (Some c) self in
          match r with
          | None => (self, Ok None)
          | Some frame =>
              let self := set_current_frame frame self in
              let self := set_current_frame_idx frame_idx self in
              let self :=
                set_blur_manager
                  (BlurManager.set_current_frame_idx frame_idx (blur_manager self))
                  self in
              match detection_results self !! frame_idx with
              | Some d => (set_detected_faces d self, Ok (Some frame))
              | None =>
                  if detect_faces self then
                    match detect_and_store frame frame_idx self with
                    | (self, Raise e) => (self, Raise e)
                    | (self, Ok _) => (self, Ok (Some frame))
                    end
                  else (set_detected_faces None self, Ok (Some frame))
              end
          end
    end.

(** Lines 94-103 of [process_current_frame]: the detections of the
    current frame become automatic regions, once per frame index.  The
    rows of the box array are never [None], so the test on each row
    always passes. *)
Definition materialize_detected (self : t) : t :=
  match detected_faces self with
  | None => self
  | Some boxes =>
      let bm := blur_manager self in
      match BlurManager.detected_regions bm !! current_frame_idx self with
      | Some _ => self
      | None =>
          let stamped :=
            foldl (fun l box =>
                     let '(x1, y1, x2, y2) := box in
                     l ++ [(x1, y1, x2, y2,
                            BlurManager.default_sigma bm, BlurManager.default_ksize bm)])
                  [] boxes in
          set_blur_manager
            (BlurManager.set_detected_regions
               (<[current_frame_idx self := stamped]> (BlurManager.detected_regions bm)) bm)
            self
      end
  end.

(** The two annotation loops of [process_current_frame]. *)
Definition annotate (bm : BlurManager.t) (idx : Z) (processed_frame : Frame) : Frame :=
  let processed_frame :=
    foldl (fun f r => draw_region f "Auto Blur" (0, 0, 255) r) processed_frame
          (default [] (BlurManager.detected_regions bm !! idx)) in
  foldl (fun f r => draw_region f "Manual Blur" (255, 0, 0) r) processed_frame
        (default [] (BlurManager.manual_regions bm !! idx)).

(** [process_current_frame] *)
Definition process_current_frame : M t (option Frame) :=
  fun self =>
    match current_frame self with
    | None => (self, Ok None)
    | Some frame =>
        match processed_frames self !! current_frame_idx self with
        | Some cached => (self, Ok (Some cached))
        | None =>
            let self := materialize_detected self in
            match BlurManager.apply_blur frame (detected_faces self)
                    (Some (current_frame_idx self)) (blur_manager self) with
            | (bm, Raise e) => (set_blur_manager bm self, Raise e)
            | (bm, Ok processed_frame) =>
                let self := set_blur_manager bm self in
                let processed_frame :=
                  annotate bm (current_frame_idx self) processed_frame in
                let self :=
                  set_processed_frames
                    (<[current_frame_idx self := processed_frame]> (processed_frames self))
                    self in
                (self, Ok (Some processed_frame))
            end
        end
    end.

(** The body of the [for] loop of [save_video], on the processor and the
    sink [out]. *)
Definition export_frame (progress_callback : option (Z -> Z -> outcome unit)) (i : Z)
    : M (t * VideoWriter Frame) unit :=
  let* frame := zoom fst (fun v s => (v, s.2)) (get_frame i) in
  match frame with
  | None => ret tt
  | Some frame =>
      let* self := gets fst in
      let detected_faces :=
        match detection_results self !! i with
        | Some d => d
        | None => None
        end in
      let* processed :=
        zoom (fun s => blur_manager s.1) (fun bm s => (set_blur_manager bm s.1, s.2))
             (BlurManager.apply_blur frame detected_faces (Some i)) in
      modify (fun s => (s.1, writer_write processed s.2)) >>
      match progress_callback with
      | Some callback =>
          let* self := gets fst in
          lift_outcome (callback (i + 1) (frame_count self))
      | None => ret tt
      end
  end.

(** The [finally] block of [save_video]. *)
Definition export_finally (current_pos : Z) : M (t * VideoWriter Frame) unit :=
  modify (fun s => (s.1, writer_release s.2)) >>
  let* _ := zoom fst (fun v s => (v, s.2)) (get_frame current_pos) in
  ret tt.

(** [save_video]: the processor after the call, the sink [out] if it was
    constructed, and the value returned or the exception raised. *)
Definition save_video (output_path : string)
    (progress_callback : option (Z -> Z -> outcome unit)) (self : t)
    : (t * option (VideoWriter Frame)) * outcome bool :=
  match cap self with
  | None => ((self, None), Ok false)
  | Some _ =>
      match fps self, width self, height self with
      | Some fps, Some width, Some height =>
          let out :=
            mkWriter (cv2_VideoWriter output_path "mp4v" fps (width, height)) [] false in
          let current_pos := current_frame_idx self in
          match try_finally
                  (for_each (seqZ 0 (frame_count self)) (export_frame progress_callback))
                  (export_finally current_pos) (self, out) with
          | ((self, out), Ok _) => ((self, Some out), Ok true)
          | ((self, out), Raise e) => ((self, Some out), Raise e)
          end
      | _, _, _ => ((self, None), Raise (AttributeError "fps"))
      end
  end.

(** [next_frame] *)
Definition next_frame : M t (option Frame) :=
  fun self =>
    if bool_decide (current_frame_idx self < frame_count self - 1)
    then get_frame (current_frame_idx self + 1) self
    else (self, Ok None).

(** [prev_frame] *)
Definition prev_frame : M t (option Frame) :=
  fun self =>
    if bool_decide (current_frame_idx self > 0)
    then get_frame (current_frame_idx self - 1) self
    else (self, Ok None).

End Processor.

End VideoProcessor.

(** ** The handlers of [class FaceBlurUI] that write to the ledger

    Of the Tk state only what the two handlers read is kept: the two
    slider variables, the drag origin and the [drawing] flag.
    [self.blur_manager] is the processor's ledger, the same object. *)

Module FaceBlurUI.

Section Handlers.
Context {Frame Float : Type} `{!Cv2 Frame} `{!Collaborators Frame Float}.

Record t : Type := mk {
  video_processor : VideoProcessor.t (Frame := Frame) (Float := Float);
  drawing : bool;
  start_x : Z;
  start_y : Z;
  blur_sigma : Z;
  blur_ksize : Z;
}.

Definition set_video_processor (vp : VideoProcessor.t) (ui : t) : t :=
  mk vp (drawing ui) (start_x ui) (start_y ui) (blur_sigma ui) (blur_ksize ui).

Definition set_drawing (b : bool) (ui : t) : t :=
  mk (video_processor ui) b (start_x ui) (start_y ui) (blur_sigma ui) (blur_ksize ui).

Definition set_blur_ksize (k : Z) (ui : t) : t :=
  mk (video_processor ui) (drawing ui) (start_x ui) (start_y ui) (blur_sigma ui) k.

Definition blur_manager (ui : t) : BlurManager.t :=
  VideoProcessor.blur_manager (video_processor ui).

(** [show_frame]: what it does to the processor; the rest draws on the
    canvas. *)
Definition show_frame : M t unit :=
  fun ui =>
    match VideoProcessor.current_frame (video_processor ui) with
    | None => (ui, Ok tt)
    | Some _ =>
        match VideoProcessor.process_current_frame (video_processor ui) with
        | (vp, Ok _) => (set_video_processor vp ui, Ok tt)
        | (vp, Raise e) => (set_video_processor vp ui, Raise e)
        end
    end.

(** [update_blur_params], the command of both sliders *)
Definition update_blur_params : M t unit :=
  fun ui =>
    let sigma := blur_sigma ui in
    let ksize := blur_ksize ui in
    let '(ksize, ui) :=
      if ksize mod 2 =? 0
      then (ksize + 1, set_blur_ksize (ksize + 1) ui)
      else (ksize, ui) in
    let vp := video_processor ui in
    let vp :=
      VideoProcessor.set_blur_manager
        (BlurManager.update_blur_params (VideoProcessor.blur_manager vp) sigma ksize) vp in
    let vp := VideoProcessor.set_processed_frames ∅ vp in
    show_frame (set_video_processor vp ui).

(** [on_canvas_release].  [end_x] and [end_y] are the frame coordinates
    the handler computes from the event, the canvas size and the display
    scale (floating point); the handler is embedded from the point where
    it has them. *)
Definition on_canvas_release (end_x end_y : Z) : M t unit :=
  fun ui =>
    if negb (drawing ui) then (ui, Ok tt)
    else
      let ui := set_drawing false ui in
      match VideoProcessor.current_frame (video_processor ui) with
      | None => (ui, Raise (AttributeError "shape"))
      | Some _ =>
          let x1 := start_x ui `min` end_x in
          let y1 := start_y ui `min` end_y in
          let x2 := start_x ui `max` end_x in
          let y2 := start_y ui `max` end_y in
          if bool_decide (x2 - x1 < 10) || bool_decide (y2 - y1 < 10)
          then (ui, Ok tt)
          else
            let sigma := blur_sigma ui in
            let ksize := blur_ksize ui in
            let ksize := ensure_odd ksize in
            let vp := video_processor ui in
            let frame_idx := VideoProcessor.current_frame_idx vp in
            let vp :=
              VideoProcessor.set_blur_manager
                (BlurManager.add_manual_region_to_frame
                   (VideoProcessor.blur_manager vp) frame_idx x1 y1 x2 y2 sigma ksize)
                vp in
            let vp :=
              VideoProcessor.set_processed_frames
                (delete frame_idx (VideoProcessor.processed_frames vp)) vp in
            show_frame (set_video_processor vp ui)
      end.

(** [on_canvas_click], from the point where the handler has the frame
    coordinates [(x, y)] of a click that fell on the image. *)
Definition on_canvas_click (x y : Z) : M t unit :=
  fun ui =>
    let vp := video_processor ui in
    match VideoProcessor.cap vp with
    | None => (ui, Ok tt)
    | Some _ =>
        match VideoProcessor.current_frame vp with
        | None => (ui, Raise (AttributeError "shape"))
        | Some _ =>
            let '(result, bm) :=
              BlurManager.toggle_region (VideoProcessor.blur_manager vp) x y
                                        (VideoProcessor.detected_faces vp) in
            let vp := VideoProcessor.set_blur_manager bm vp in
            if result then
              let current_idx := VideoProcessor.current_frame_idx vp in
              let vp :=
                VideoProcessor.set_processed_frames
                  (delete current_idx (VideoProcessor.processed_frames vp)) vp in
              show_frame (set_video_processor vp ui)
            else
              (mk vp true x y (blur_sigma ui) (blur_ksize ui), Ok tt)
        end
    end.

(** [run_detection] *)
Definition run_detection : M t unit :=
  fun ui =>
    let vp := video_processor ui in
    match VideoProcessor.current_frame vp with
    | None => (ui, Ok tt)
    | Some frame =>
        let current_idx := VideoProcessor.current_frame_idx vp in
        let vp :=
          VideoProcessor.set_detection_results
            (delete current_idx (VideoProcessor.detection_results vp)) vp in
        match VideoProcessor.detect_and_store frame current_idx vp with
        | (vp, Raise e) => (set_video_processor vp ui, Raise e)
        | (vp, Ok _) =>
            let vp :=
              VideoProcessor.set_processed_frames
                (delete current_idx (VideoProcessor.processed_frames vp)) vp in
            show_frame (set_video_processor vp ui)
        end
    end.

(** [next_frame] of the interface *)
Definition next_frame : M t unit :=
  fun ui =>
    match VideoProcessor.next_frame (video_processor ui) with
    | (vp, Raise e) => (set_video_processor vp ui, Raise e)
    | (vp, Ok None) => (set_video_processor vp ui, Ok tt)
    | (vp, Ok (Some _)) =>
        let current_idx := VideoProcessor.current_frame_idx vp in
        let vp :=
          VideoProcessor.set_processed_frames
            (delete current_idx (VideoProcessor.processed_frames vp)) vp in
        show_frame (set_video_processor vp ui)
    end.

(** [prev_frame] of the interface: the render cache is not touched. *)
Definition prev_frame : M t unit :=
  fun ui =>
    match VideoProcessor.prev_frame (video_processor ui) with
    | (vp, Raise e) => (set_video_processor vp ui, Raise e)
    | (vp, Ok None) => (set_video_processor vp ui, Ok tt)
    | (vp, Ok (Some _)) => show_frame (set_video_processor vp ui)
    end.

(** [on_slider_change], from the point where the handler has
    [frame_idx = int(float(value))]. *)
Definition on_slider_change (frame_idx : Z) : M t unit :=
  fun ui =>
    match VideoProcessor.get_frame frame_idx (video_processor ui) with
    | (vp, Raise e) => (set_video_processor vp ui, Raise e)
    | (vp, Ok _) => show_frame (set_video_processor vp ui)
    end.

(** [maintain_prev_box] *)
Definition maintain_prev_box : M t unit :=
  fun ui =>
    let vp := video_processor ui in
    match VideoProcessor.cap vp with
    | None => (ui, Ok tt)
    | Some _ =>
        let current_idx := VideoProcessor.current_frame_idx vp in
        let next_idx := current_idx + 1 in
        if bool_decide (next_idx >= VideoProcessor.frame_count vp) then (ui, Ok tt)
        else
          let '(copied, bm) :=
            BlurManager.copy_regions_to_next_frame (VideoProcessor.blur_manager vp) in
          let vp := VideoProcessor.set_blur_manager bm vp in
          if copied then
            let vp :=
              VideoProcessor.set_processed_frames
                (delete next_idx (VideoProcessor.processed_frames vp)) vp in
            match VideoProcessor.get_frame next_idx vp with
            | (vp, Raise e) => (set_video_processor vp ui, Raise e)
            | (vp, Ok _) => show_frame (set_video_processor vp ui)
            end
          else next_frame (set_video_processor vp ui)
    end.

End Handlers.

End FaceBlurUI.

(** ** Vocabulary of the statements *)

(** How often a region occurs in a collection. *)
Definition occurrences (r : Region) (l : list Region) : nat :=
  length (filter (λ x, x = r) l).

(** [if frame_idx is not None: self.current_frame_idx = frame_idx] *)
Definition stamp_idx (idx : option Z) (bm : BlurManager.t) : BlurManager.t :=
  match idx with
  | Some i => BlurManager.set_current_frame_idx i bm
  | None => bm
  end.

(** The ledgers a program can reach: a new manager, changed by its
    methods and by the two assignments the processor makes to it from
    outside ([blur_manager.current_frame_idx = ...] in [get_frame] and
    [open_video], [blur_manager.detected_regions[...] = ...] in
    [process_current_frame]). *)
Section Reached.
Context {Frame : Type} `{!Cv2 Frame}.

Inductive reached : BlurManager.t → Prop :=
| reached_init : reached BlurManager.init
| reached_reset s : reached s → reached (BlurManager.reset s)
| reached_toggle_all_blur s : reached s → reached (BlurManager.toggle_all_blur s)
| reached_toggle_region s x y d :
    reached s → reached (BlurManager.toggle_region s x y d).2
| reached_add_manual_region_to_frame s frame_idx x1 y1 x2 y2 sigma ksize :
    reached s →
    reached (BlurManager.add_manual_region_to_frame s frame_idx x1 y1 x2 y2 sigma ksize)
| reached_update_blur_params s sigma ksize :
    reached s → reached (BlurManager.update_blur_params s sigma ksize)
| reached_copy_regions_to_next_frame s :
    reached s → reached (BlurManager.copy_regions_to_next_frame s).2
| reached_apply_blur s (frame : Frame) d idx :
    reached s → reached (BlurManager.apply_blur frame d idx s).1
| reached_assign_current_frame_idx s i :
    reached s → reached (BlurManager.set_current_frame_idx i s)
| reached_assign_detected_regions s m :
    reached s → reached (BlurManager.set_detected_regions m s).

End Reached.

Section Vocabulary.
Context {Frame Float : Type} `{!Cv2 Frame} `{!Collaborators Frame Float}.

(** The frame [apply_blur] returns for index [i]: the automatic regions
    of [i] in order, then the manual ones. *)
Definition composite (bm : BlurManager.t) (frame : Frame) (i : Z) : outcome Frame :=
  BlurManager.blur_each frame
    (default [] (BlurManager.detected_regions bm !! i)
     ++ default [] (BlurManager.manual_regions bm !! i)).

(** What no method but [open_video] changes: the decoded source and its
    metadata; and what only the ledger operations change: the region
    collections and the defaults. *)
Definition source (s : VideoProcessor.t (Frame := Frame) (Float := Float))
    : option (bool * (Z → option Frame)) :=
  (λ c, (isOpened c, decode c)) <$> VideoProcessor.cap s.

Definition setup (s : VideoProcessor.t (Frame := Frame) (Float := Float)) :=
  (VideoProcessor.frame_count s, VideoProcessor.fps s,
   VideoProcessor.width s, VideoProcessor.height s,
   VideoProcessor.detect_faces s,
   BlurManager.manual_regions (VideoProcessor.blur_manager s),
   BlurManager.detected_regions (VideoProcessor.blur_manager s),
   BlurManager.default_sigma (VideoProcessor.blur_manager s),
   BlurManager.default_ksize (VideoProcessor.blur_manager s),
   source s).

Definition same_setup (s s' : VideoProcessor.t (Frame := Frame) (Float := Float))
    : Prop :=
  setup s' = setup s.

(** The frame [get_frame i] can return: the source is open, [i] is
    within [frame_count] and the read at [i] succeeds. *)
Definition readable (s : VideoProcessor.t (Frame := Frame) (Float := Float)) (i : Z)
    : option Frame :=
  match source s with
  | Some (true, dec) =>
      if bool_decide (0 <= i < VideoProcessor.frame_count s) then dec i else None
  | _ => None
  end.

(** The frames an export writes for the indices [l], from the source
    and the ledger alone: each readable frame, composited; the list
    ends where the compositor raises. *)
Fixpoint expected_writes
    (s : VideoProcessor.t (Frame := Frame) (Float := Float)) (l : list Z)
    : list Frame :=
  match l with
  | [] => []
  | i :: l' =>
      match readable s i with
      | None => expected_writes s l'
      | Some frame =>
          match composite (VideoProcessor.blur_manager s) frame i with
          | Ok processed => processed :: expected_writes s l'
          | Raise _ => []
          end
      end
  end.

(** What the sink receives for index [i]: the frame the source supplies
    there, composited with the regions of [i]; the frame itself when
    [i] has no region. *)
Definition written_for
    (s : VideoProcessor.t (Frame := Frame) (Float := Float)) (i : Z) (p : Frame)
    : Prop :=
  ∃ frame, readable s i = Some frame
           ∧ composite (VideoProcessor.blur_manager s) frame i = Ok p
           ∧ (default [] (BlurManager.detected_regions (VideoProcessor.blur_manager s) !! i) = [] →
              default [] (BlurManager.manual_regions (VideoProcessor.blur_manager s) !! i) = [] →
              p = frame).

(** [p] is what a render of [frame] at index [i] gives with the ledger
    of [s]: the composite, outlined and labelled. *)
Definition rendered
    (s : VideoProcessor.t (Frame := Frame) (Float := Float)) (i : Z) (frame p : Frame)
    : Prop :=
  ∃ q, composite (VideoProcessor.blur_manager s) frame i = Ok q
       ∧ p = VideoProcessor.annotate (VideoProcessor.blur_manager s) i q.

End Vocabulary.

(** ** A symbolic instance of the collaborators

    An image is the term of the operations applied to a decoded frame,
    so the order of the blur passes can be read off a result.  The
    source ["clip.mp4"] has two frames and a face in the first; a sink
    opens only at ["out.mp4"].  The source ["damaged.mp4"] opens and
    reports two frames, of which the first cannot be decoded. *)

Module Fixture.

Inductive Img : Type :=
| Raw (id : Z)
| Slice (a : Img) (y1 y2 x1 x2 : Z)
| Blurred (a : Img) (kw kh sigma : Z)
| Assigned (a : Img) (y1 y2 x1 x2 : Z) (b : Img)
| Drawn (a : Img) (label : string) (r : Region).

#[global] Instance cv2 : Cv2 Img := {|
  slice := Slice;
  slice_assign := Assigned;
  GaussianBlur a k sigma :=
    if bool_decide (0 < k.1)
    then Ok (Blurred a k.1 k.2 sigma)
    else Raise (ExternalError "cv2.GaussianBlur" (-215));
  draw_region a label _ r := Drawn a label r;
|}.

Definition clip : VideoCapture Img Z :=
  mkCapture true 2 30 640 480 0
            (fun i => if bool_decide (0 <= i < 2) then Some (Raw i) else None).

Definition no_capture : VideoCapture Img Z :=
  mkCapture false 0 0 0 0 0 (fun _ => None).

Definition damaged : VideoCapture Img Z :=
  mkCapture true 2 30 640 480 0
            (fun i => if bool_decide (i = 1) then Some (Raw 1) else None).

#[global] Instance collaborators : Collaborators Img Z := {|
  face_detector_detect_faces frame :=
    match frame with
    | Raw 0 => Ok (Some [(10, 10, 60, 60)])
    | Raw _ => Ok None
    | _ => Raise (ExternalError "MTCNN.detect" 0)
    end;
  cv2_VideoCapture path :=
    if bool_decide (path = "clip.mp4") then clip
    else if bool_decide (path = "damaged.mp4") then damaged
    else no_capture;
  cv2_VideoWriter path _ _ _ := bool_decide (path = "out.mp4");
|}.

(** A ledger with one manual and one automatic region on frame 0. *)
Definition ledger : BlurManager.t :=
  BlurManager.set_detected_regions {[0 := [(10, 10, 60, 60, 30, 31)]]}
    (BlurManager.add_manual_region_to_frame BlurManager.init 0 5 5 40 40 30 31).

(** A processor that has opened ["clip.mp4"] with detection enabled. *)
Definition opened : VideoProcessor.t :=
  (VideoProcessor.open_video "clip.mp4" (VideoProcessor.init BlurManager.init)).1.

(** The same with detection disabled from the start. *)
Definition opened_without_detection : VideoProcessor.t :=
  (VideoProcessor.open_video "clip.mp4"
     (VideoProcessor.set_detect_faces false (VideoProcessor.init BlurManager.init))).1.

(** A processor that has opened ["damaged.mp4"]: [open_video] has
    returned [True], the read of the first frame has failed. *)
Definition opened_damaged : VideoProcessor.t :=
  (VideoProcessor.open_video "damaged.mp4" (VideoProcessor.init BlurManager.init)).1.

(** A processor that holds [ledger] and has no video yet. *)
Definition with_ledger : VideoProcessor.t :=
  VideoProcessor.init (Frame := Img) (Float := Z) ledger.

(** A progress callback that raises when told of the second frame. *)
Definition failing_callback (current total : Z) : outcome unit :=
  if current =? 2 then Raise (ExternalError "progress_callback" 0) else Ok tt.

(** The interface on [opened], in the middle of a drag that began at
    [(60, 60)], with the kernel-size slider on an even value. *)
Definition ui : FaceBlurUI.t := FaceBlurUI.mk opened true 60 60 30 30.

End Fixture.

(** * Properties *)

(** ** Kernel-size parity *)

Lemma ensure_odd_spec (k : Z) :
  ensure_odd k = if Z.odd k then k else k + 1.
Proof.
  unfold ensure_odd. rewrite Zmod_odd.
  destruct (Z.odd k); reflexivity.
Qed.

Lemma ensure_odd_is_odd (k : Z) : Z.odd (ensure_odd k) = true.
Proof.
  rewrite ensure_odd_spec. destruct (Z.odd k) eqn:E; [exact E|].
  rewrite Z.odd_add, E. reflexivity.
Qed.

(** The slider handler writes the test the other way round
    ([ksize % 2 == 0]); it is the same correction. *)
Lemma even_test_is_ensure_odd (k : Z) :
  (if k mod 2 =? 0 then k + 1 else k) = ensure_odd k.
Proof.
  unfold ensure_odd. rewrite Zmod_odd.
  destruct (Z.odd k); reflexivity.
Qed.

(** ** The ledger *)

Module BlurManagerFacts.
Import BlurManager.

Lemma occurrences_app r l1 l2 :
  occurrences r (l1 ++ l2) = (occurrences r l1 + occurrences r l2)%nat.
Proof. unfold occurrences. by rewrite filter_app, length_app. Qed.

Lemma occurrences_not_in r l : r ∉ l → occurrences r l = 0%nat.
Proof.
  unfold occurrences. induction l as [|a l IH]; [done|].
  intros Hn. apply not_elem_of_cons in Hn as [Hne Hn].
  rewrite filter_cons_False by congruence. auto.
Qed.

Lemma occurrences_singleton r a :
  occurrences r [a] = if decide (a = r) then 1%nat else 0%nat.
Proof.
  unfold occurrences. destruct (decide (a = r)).
  - by rewrite filter_cons_True.
  - by rewrite filter_cons_False.
Qed.

(** The index loop of [update_blur_params] rewrites every element. *)
Lemma restamp_loop_from sigma ksize (l1 l2 : list Region) :
  foldl (fun acc i =>
           match acc !! i with
           | Some r => <[i := restamp sigma ksize r]> acc
           | None => acc
           end)
        ((restamp sigma ksize <$> l1) ++ l2) (seq (length l1) (length l2))
  = restamp sigma ksize <$> (l1 ++ l2).
Proof.
  revert l1. induction l2 as [|r l2 IH]; intros l1.
  - simpl. by rewrite !app_nil_r.
  - simpl.
    rewrite lookup_app_r by (rewrite length_fmap; lia).
    rewrite length_fmap, Nat.sub_diag. simpl.
    replace (<[length l1 := restamp sigma ksize r]> ((restamp sigma ksize <$> l1) ++ r :: l2))
      with ((restamp sigma ksize <$> (l1 ++ [r])) ++ l2).
    + specialize (IH (l1 ++ [r])).
      rewrite length_app in IH. simpl in IH.
      replace (length l1 + 1)%nat with (S (length l1)) in IH by lia.
      rewrite IH. by rewrite <- app_assoc.
    + rewrite insert_app_r_alt by (rewrite length_fmap; lia).
      rewrite length_fmap, Nat.sub_diag. simpl.
      rewrite fmap_app. simpl. by rewrite <- app_assoc.
Qed.

Lemma restamp_list_fmap sigma ksize (l : list Region) :
  restamp_list sigma ksize l = restamp sigma ksize <$> l.
Proof. exact (restamp_loop_from sigma ksize [] l). Qed.

Lemma restamp_coords sigma ksize r : coords (restamp sigma ksize r) = coords r.
Proof. by destruct r as [[[[[x1 y1] x2] y2] s] k]. Qed.

Lemma restamp_params sigma ksize r :
  sigma_of (restamp sigma ksize r) = sigma ∧ ksize_of (restamp sigma ksize r) = ksize.
Proof. by destruct r as [[[[[x1 y1] x2] y2] s] k]. Qed.

(** [update_blur_params] on the manual collections: every region of
    every frame is rewritten, its coordinates kept. *)
Lemma update_blur_params_manual s sigma ksize i :
  manual_regions (update_blur_params s sigma ksize) !! i
  = (fmap (restamp sigma ksize)) <$> (manual_regions s !! i).
Proof.
  simpl. rewrite lookup_fmap.
  destruct (manual_regions s !! i); simpl; [|done].
  by rewrite restamp_list_fmap.
Qed.

(** [update_blur_params] never visits the automatic collections. *)
Lemma update_blur_params_detected s sigma ksize :
  detected_regions (update_blur_params s sigma ksize) = detected_regions s.
Proof. reflexivity. Qed.

(** [reset] empties both collections; nothing in [open_video] calls it. *)
Lemma reset_clears_collections s :
  manual_regions (reset s) = ∅ ∧ detected_regions (reset s) = ∅.
Proof. done. Qed.

(** *** Forward copy *)

Lemma append_missing_cons a src dst :
  append_missing (a :: src) dst
  = append_missing src (if decide (a ∈ dst) then dst else dst ++ [a]).
Proof. reflexivity. Qed.

Lemma append_missing_keeps src dst r : r ∈ dst → r ∈ append_missing src dst.
Proof.
  revert dst. induction src as [|a src IH]; intros dst Hr; [done|].
  rewrite append_missing_cons. apply IH.
  destruct (decide (a ∈ dst)); [done|]. apply elem_of_app; by left.
Qed.

Lemma append_missing_covers src dst r : r ∈ src → r ∈ append_missing src dst.
Proof.
  revert dst. induction src as [|a src IH]; intros dst Hr; [by inversion Hr|].
  rewrite append_missing_cons.
  apply elem_of_cons in Hr as [->|Hr]; [|by apply IH].
  apply append_missing_keeps.
  destruct (decide (a ∈ dst)); [done|]. apply elem_of_app; right; by left.
Qed.

Lemma append_missing_fixed src dst :
  (∀ r, r ∈ src → r ∈ dst) → append_missing src dst = dst.
Proof.
  revert dst. induction src as [|a src IH]; intros dst Hall; [done|].
  rewrite append_missing_cons.
  rewrite decide_True by (apply Hall; by left).
  apply IH. intros r Hr. apply Hall. by right.
Qed.

Lemma append_missing_twice src dst :
  append_missing src (append_missing src dst) = append_missing src dst.
Proof. apply append_missing_fixed. intros r. apply append_missing_covers. Qed.

(** Dedup by structural equality: a region already in the target keeps
    its number of occurrences, a new one is appended exactly once. *)
Lemma occurrences_append_missing r src dst :
  occurrences r (append_missing src dst)
  = if decide (r ∈ dst) then occurrences r dst
    else if decide (r ∈ src) then 1%nat else 0%nat.
Proof.
  revert dst. induction src as [|a src IH]; intros dst.
  - change (append_missing [] dst) with dst.
    destruct (decide (r ∈ dst)); [done|].
    destruct (decide (r ∈ [])) as [H|_]; [by apply elem_of_nil in H|].
    by apply occurrences_not_in.
  - rewrite append_missing_cons, IH. clear IH.
    destruct (decide (a ∈ dst)) as [Ha|Ha].
    + destruct (decide (r ∈ dst)) as [Hr|Hr]; [done|].
      assert (r ≠ a) by congruence.
      destruct (decide (r ∈ src)) as [Hs|Hs].
      * rewrite decide_True; [done|by right].
      * rewrite decide_False; [done|]. rewrite elem_of_cons. tauto.
    + destruct (decide (r ∈ dst)) as [Hr|Hr].
      * rewrite decide_True by (apply elem_of_app; by left).
        rewrite occurrences_app, occurrences_singleton.
        rewrite decide_False by congruence. lia.
      * destruct (decide (r = a)) as [->|Hne].
        -- rewrite decide_True by (apply elem_of_app; right; by left).
           rewrite decide_True by (by left).
           rewrite occurrences_app, occurrences_singleton, decide_True by done.
           by rewrite occurrences_not_in.
        -- rewrite decide_False.
           2:{ rewrite elem_of_app, list_elem_of_singleton. tauto. }
           destruct (decide (r ∈ src)) as [Hs|Hs].
           ++ rewrite decide_True; [done|by right].
           ++ rewrite decide_False; [done|]. rewrite elem_of_cons. tauto.
Qed.

Lemma copy_collection_next (m : gmap Z (list Region)) cur next :
  cur ≠ next →
  copy_collection m cur next !! next
  = Some (append_missing (default [] (m !! cur)) (default [] (m !! next))).
Proof.
  intros Hne. unfold copy_collection. rewrite lookup_insert_eq.
  destruct (m !! next) as [l|] eqn:E.
  - by rewrite E.
  - by rewrite lookup_insert_eq, lookup_insert_ne.
Qed.

Lemma copy_collection_other (m : gmap Z (list Region)) cur next k :
  k ≠ next → copy_collection m cur next !! k = m !! k.
Proof.
  intros Hne. unfold copy_collection. rewrite lookup_insert_ne by done.
  destruct (m !! next); [done|]. by rewrite lookup_insert_ne.
Qed.

Lemma copy_collection_twice (m : gmap Z (list Region)) cur next :
  cur ≠ next →
  copy_collection (copy_collection m cur next) cur next = copy_collection m cur next.
Proof.
  intros Hne. apply map_eq. intros k.
  destruct (decide (k = next)) as [->|Hk].
  - rewrite (copy_collection_next (copy_collection m cur next)) by done.
    rewrite copy_collection_other by done.
    rewrite !copy_collection_next by done. simpl.
    by rewrite append_missing_twice.
  - by rewrite !copy_collection_other.
Qed.

Lemma has_regions_copy_collection (m : gmap Z (list Region)) cur next :
  cur ≠ next → has_regions (copy_collection m cur next) cur = has_regions m cur.
Proof. intros Hne. unfold has_regions. by rewrite copy_collection_other. Qed.

Lemma has_regions_false (m : gmap Z (list Region)) i :
  has_regions m i = false ↔ (m !! i = None ∨ m !! i = Some []).
Proof.
  unfold has_regions. destruct (m !! i) as [[|r l]|].
  - split; [auto|]. intros _. apply bool_decide_eq_false. simpl. lia.
  - rewrite bool_decide_eq_false. simpl. split; [lia|]. intros [?|?]; congruence.
  - split; auto.
Qed.

Lemma copy_regions_twice (s : t) :
  copy_regions_to_next_frame (copy_regions_to_next_frame s).2
  = copy_regions_to_next_frame s.
Proof.
  assert (Hne : current_frame_idx s ≠ current_frame_idx s + 1) by lia.
  unfold copy_regions_to_next_frame.
  destruct (has_regions (manual_regions s) (current_frame_idx s)) eqn:Hm;
    destruct (has_regions (detected_regions s) (current_frame_idx s)) eqn:Hd;
    simpl; rewrite ?has_regions_copy_collection, ?Hm, ?Hd by done; simpl;
    rewrite ?copy_collection_twice by done; try reflexivity.
Qed.

(** C1 (the code does not do this).  [update_blur_params] rewrites the
    parameters of every manual region and keeps its coordinates, but it
    never visits [detected_regions]: whatever the ledger, the automatic
    collections come out as they went in.  On the ledger [Fixture.ledger]
    the call with [(10, 5)] rewrites the manual region of frame 0 and
    leaves the automatic one at [(30, 31)]. *)
Theorem update_blur_params_skips_detected_regions :
  (∀ s sigma ksize,
     detected_regions (update_blur_params s sigma ksize) = detected_regions s)
  ∧ manual_regions (update_blur_params Fixture.ledger 10 5) !! 0
    = Some [(5, 5, 40, 40, 10, 5)]
  ∧ detected_regions (update_blur_params Fixture.ledger 10 5) !! 0
    = Some [(10, 10, 60, 60, 30, 31)].
Proof.
  split; [intros; apply update_blur_params_detected|].
  split; vm_compute; reflexivity.
Qed.

(** C8.  Calling [copy_regions_to_next_frame] twice in a row is the same
    as calling it once: the second call returns what the first returned
    and leaves the ledger as the first left it.  After the calls a
    region of frame [i+1] that was there before occurs as often as
    before, and any other region occurs once if frame [i] has it and not
    at all otherwise, in the manual and in the automatic collection.
    When frame [i] has no manual and no automatic region (its key absent
    or its list empty), the call returns [False] and the ledger,
    keys included, is unchanged. *)
Theorem copy_regions_to_next_frame_idempotent (s : t) :
  let i := current_frame_idx s in
  let once := copy_regions_to_next_frame s in
  let twice := copy_regions_to_next_frame once.2 in
  let dedup (before after : gmap Z (list Region)) :=
    ∀ r, occurrences r (default [] (after !! (i + 1)))
         = if decide (r ∈ default [] (before !! (i + 1)))
           then occurrences r (default [] (before !! (i + 1)))
           else if decide (r ∈ default [] (before !! i)) then 1%nat else 0%nat in
  twice = once
  ∧ (once.1 = true →
     dedup (manual_regions s) (manual_regions twice.2)
     ∧ dedup (detected_regions s) (detected_regions twice.2))
  ∧ ((manual_regions s !! i = None ∨ manual_regions s !! i = Some []) →
     (detected_regions s !! i = None ∨ detected_regions s !! i = Some []) →
     once = (false, s)).
Proof.
  intros i once twice dedup.
  assert (Hne : i ≠ i + 1) by lia.
  split; [apply copy_regions_twice|]. split.
  - subst twice once. rewrite copy_regions_twice. subst dedup i.
    unfold copy_regions_to_next_frame.
    destruct (has_regions (manual_regions s) (current_frame_idx s)) eqn:Hm;
      destruct (has_regions (detected_regions s) (current_frame_idx s)) eqn:Hd;
      simpl; intros Hret; try discriminate; split; intros r;
      rewrite ?copy_collection_next by done; simpl;
      rewrite ?occurrences_append_missing; try reflexivity.
    + apply has_regions_false in Hd as [->| ->]; simpl;
        (destruct (decide (r ∈ default [] (detected_regions s !! (current_frame_idx s + 1))));
         [done|]);
        rewrite occurrences_not_in by done;
        by destruct (decide (r ∈ [])) as [H|_]; [apply elem_of_nil in H|].
    + apply has_regions_false in Hm as [->| ->]; simpl;
        (destruct (decide (r ∈ default [] (manual_regions s !! (current_frame_idx s + 1))));
         [done|]);
        rewrite occurrences_not_in by done;
        by destruct (decide (r ∈ [])) as [H|_]; [apply elem_of_nil in H|].
  - intros Hm Hd. apply has_regions_false in Hm, Hd.
    subst once i. unfold copy_regions_to_next_frame. by rewrite Hm, Hd.
Qed.

(** A ledger whose current frame has two regions, one of them twice, and
    whose next frame already holds one of them. *)
Example copy_regions_to_next_frame_run :
  let s := set_manual_regions
             {[0 := [(1, 1, 20, 20, 30, 31); (2, 2, 30, 30, 30, 31); (1, 1, 20, 20, 30, 31)];
               1 := [(2, 2, 30, 30, 30, 31)]]} init in
  (copy_regions_to_next_frame s).1 = true
  ∧ manual_regions (copy_regions_to_next_frame (copy_regions_to_next_frame s).2).2 !! 1
    = Some [(2, 2, 30, 30, 30, 31); (1, 1, 20, 20, 30, 31)]
  ∧ detected_regions (copy_regions_to_next_frame s).2 !! 1 = None.
Proof. vm_compute. done. Qed.

(** The third part of [copy_regions_to_next_frame_idempotent] at a ledger
    whose current frame has an empty manual list and no automatic key. *)
Lemma copy_regions_to_next_frame_empty_witness :
  let s := set_manual_regions {[0 := []]} init in
  copy_regions_to_next_frame s = (false, s).
Proof.
  intros s.
  apply (proj2 (proj2 (copy_regions_to_next_frame_idempotent s)));
    [right|left]; reflexivity.
Defined.

End BlurManagerFacts.

(** ** The compositor *)

Module CompositorFacts.
Import BlurManager.

Section Facts.
Context {Frame : Type} `{!Cv2 Frame}.

Lemma blur_each_app (frame : Frame) l1 l2 :
  blur_each frame (l1 ++ l2)
  = match blur_each frame l1 with
    | Ok result => blur_each result l2
    | Raise e => Raise e
    end.
Proof.
  revert frame. induction l1 as [|r l1 IH]; intros frame; simpl; [done|].
  destruct (blur_region frame r); [apply IH|done].
Qed.

Lemma apply_blur_value (frame : Frame) d idx bm :
  apply_blur frame d idx bm
  = (stamp_idx idx bm,
     blur_each frame
       (regions_at (detected_regions bm) idx ++ regions_at (manual_regions bm) idx)).
Proof.
  unfold apply_blur. rewrite blur_each_app.
  destruct idx as [i|]; simpl; repeat case_match; congruence.
Qed.

(** The loop writes through [result] only, and leaves there what the
    loop on values computes. *)
Lemma blur_each_obj_spec (result : nat) l (h : store (Frame := Frame)) a :
  h !! result = Some a →
  let res := blur_each_obj result l h in
  (∀ k, k ≠ result → res.1 !! k = h !! k)
  ∧ length res.1 = length h
  ∧ match blur_each a l with
    | Ok a' => res.2 = Ok tt ∧ res.1 !! result = Some a'
    | Raise e => res.2 = Raise e
    end.
Proof.
  revert h a. induction l as [|r l IH]; intros h a Ha; simpl.
  { by split_and!. }
  rewrite Ha. destruct (blur_region a r) as [a'|e]; simpl; [|by split_and!].
  assert (Hlt : (result < length h)%nat) by (by eapply lookup_lt_Some).
  destruct (IH (<[result := a']> h) a') as (H1 & H2 & H3).
  { by apply list_lookup_insert_eq. }
  split_and!; [|by rewrite H2, length_insert|done].
  intros k Hk. rewrite H1 by done. by apply list_lookup_insert_ne.
Qed.

Lemma apply_blur_obj_unfold (frame : nat) d idx bm (h : store (Frame := Frame)) a :
  h !! frame = Some a →
  apply_blur_obj frame d idx (bm, h)
  = match blur_each_obj (length h) (regions_at (detected_regions bm) idx) (h ++ [a]) with
    | (h1, Raise e) => ((stamp_idx idx bm, h1), Raise e)
    | (h1, Ok _) =>
        match blur_each_obj (length h) (regions_at (manual_regions bm) idx) h1 with
        | (h2, Raise e) => ((stamp_idx idx bm, h2), Raise e)
        | (h2, Ok _) => ((stamp_idx idx bm, h2), Ok (length h))
        end
    end.
Proof.
  intros Ha.
  unfold apply_blur_obj, bind, zoom, copy, modify, gets, ret. simpl. rewrite Ha.
  destruct idx as [i|]; simpl; [|done].
  match goal with
  | |- context [blur_each_obj ?r ?l ?h0] =>
      destruct (blur_each_obj r l h0) as [h1 [[]|e]]
  end; simpl; [|done].
  match goal with
  | |- context [blur_each_obj ?r ?l ?h0] =>
      by destruct (blur_each_obj r l h0) as [h2 [[]|e]]
  end.
Qed.

(** C9.  [apply_blur] on a live array [frame] with contents [a]: every
    array that existed before the call, [frame] among them, has the
    contents it had, whether the call returns or raises; the array
    returned is a new one; and its contents are those of [a] after one
    blur pass per region, the automatic regions of the frame index in
    insertion order and then the manual ones, each pass reading what the
    passes before it wrote.  The ledger is touched as in the reading on
    values. *)
Theorem apply_blur_copies_and_blurs_in_order
    (frame : nat) d idx bm (h : store (Frame := Frame)) a :
  h !! frame = Some a →
  let res := apply_blur_obj frame d idx (bm, h) in
  let regions :=
    regions_at (detected_regions bm) idx ++ regions_at (manual_regions bm) idx in
  (∀ k, (k < length h)%nat → res.1.2 !! k = h !! k)
  ∧ res.1.2 !! frame = Some a
  ∧ res.1.1 = (apply_blur a d idx bm).1
  ∧ (apply_blur a d idx bm).2 = blur_each a regions
  ∧ (∀ r l result, blur_each result (r :: l)
                   = match blur_region result r with
                     | Ok result' => blur_each result' l
                     | Raise e => Raise e
                     end)
  ∧ match blur_each a regions with
    | Ok blurred =>
        res.2 = Ok (length h) ∧ frame ≠ length h
        ∧ res.1.2 !! length h = Some blurred
    | Raise e => res.2 = Raise e
    end.
Proof.
  intros Ha res regions.
  assert (Hlt : (frame < length h)%nat) by (by eapply lookup_lt_Some).
  assert (Hold : ∀ k, (k < length h)%nat → (h ++ [a]) !! k = h !! k)
    by (intros; by apply lookup_app_l).
  assert (Hnew : (h ++ [a]) !! length h = Some a)
    by (rewrite lookup_app_r, Nat.sub_diag by lia; done).
  subst res regions. rewrite apply_blur_value, blur_each_app. simpl.
  rewrite (apply_blur_obj_unfold frame d idx bm h a Ha).
  pose proof (blur_each_obj_spec (length h) (regions_at (detected_regions bm) idx)
                (h ++ [a]) a Hnew) as (H1 & H2 & H3).
  destruct (blur_each_obj (length h) (regions_at (detected_regions bm) idx) (h ++ [a]))
    as [h1 r1]. simpl in *.
  destruct (blur_each a (regions_at (detected_regions bm) idx)) as [a1|e].
  2:{ subst r1. simpl.
      split_and!; try done.
      - intros k Hk. rewrite H1 by lia. by apply Hold.
      - rewrite H1 by lia. by rewrite Hold. }
  destruct H3 as [-> H3]. simpl.
  pose proof (blur_each_obj_spec (length h) (regions_at (manual_regions bm) idx)
                h1 a1 H3) as (H4 & H5 & H6).
  destruct (blur_each_obj (length h) (regions_at (manual_regions bm) idx) h1)
    as [h2 r2]. simpl in *.
  assert (Hkeep : ∀ k, (k < length h)%nat → h2 !! k = h !! k).
  { intros k Hk. rewrite H4, H1 by lia. by apply Hold. }
  destruct (blur_each a1 (regions_at (manual_regions bm) idx)) as [a2|e].
  - destruct H6 as [-> H6]. simpl.
    split_and!; try done; [by rewrite Hkeep|lia].
  - subst r2. simpl. split_and!; try done. by rewrite Hkeep.
Qed.

End Facts.

(** [Fixture.ledger] has an automatic and a manual region on frame 0 that
    overlap: the manual pass blurs a slice of what the automatic pass
    wrote, into a new array, and the input array is as it was. *)
Lemma apply_blur_copies_and_blurs_in_order_witness :
  let res := apply_blur_obj 0%nat None (Some 0) (Fixture.ledger, [Fixture.Raw 0]) in
  let auto_pass :=
    Fixture.Assigned (Fixture.Raw 0) 10 60 10 60
      (Fixture.Blurred (Fixture.Slice (Fixture.Raw 0) 10 60 10 60) 31 31 30) in
  res.1.2 !! 0%nat = Some (Fixture.Raw 0)
  ∧ res.2 = Ok 1%nat
  ∧ 0%nat ≠ 1%nat
  ∧ res.1.2 !! 1%nat
    = Some (Fixture.Assigned auto_pass 5 40 5 40
              (Fixture.Blurred (Fixture.Slice auto_pass 5 40 5 40) 31 31 30)).
Proof.
  destruct (apply_blur_copies_and_blurs_in_order
              0%nat None (Some 0) Fixture.ledger [Fixture.Raw 0] (Fixture.Raw 0) eq_refl)
    as (_ & H2 & _ & _ & _ & H6).
  split; [exact H2|exact H6].
Defined.

End CompositorFacts.

(** ** The processor *)

Module VideoProcessorFacts.
Import VideoProcessor.

Section Facts.
Context {Frame Float : Type} `{!Cv2 Frame} `{!Collaborators Frame Float}.

Abbreviation t := (VideoProcessor.t (Frame := Frame) (Float := Float)).

Lemma same_setup_refl (s : t) : same_setup s s.
Proof. reflexivity. Qed.

Lemma same_setup_trans (s1 s2 s3 : t) :
  same_setup s1 s2 → same_setup s2 s3 → same_setup s1 s3.
Proof. unfold same_setup. congruence. Qed.

Lemma cap_read_source (c : VideoCapture Frame Float) :
  isOpened (cap_read c).1 = isOpened c ∧ decode (cap_read c).1 = decode c.
Proof. unfold cap_read. repeat case_match; done. Qed.

Lemma cap_read_ok (c : VideoCapture Frame Float) frame :
  isOpened c = true → decode c (CAP_PROP_POS_FRAMES c) = Some frame →
  cap_read c = (cap_set_pos c (CAP_PROP_POS_FRAMES c + 1), Some frame).
Proof. intros Ho Hd. unfold cap_read. by rewrite Ho, Hd. Qed.

Lemma detect_and_store_same frame idx (s : t) :
  same_setup s (detect_and_store frame idx s).1.
Proof. unfold detect_and_store. by case_match. Qed.

Lemma get_frame_same i (s : t) : same_setup s (get_frame i s).1.
Proof.
  unfold get_frame.
  destruct (cap s) as [c|] eqn:Hc; [|reflexivity].
  case_match; [reflexivity|].
  pose proof (cap_read_source (cap_set_pos c i)) as [Ho Hd].
  destruct (cap_read (cap_set_pos c i)) as [c' r]. simpl in Ho, Hd.
  assert (Hsrc : ∀ s0 : t,
             cap s0 = Some c' → frame_count s0 = frame_count s →
             fps s0 = fps s → width s0 = width s → height s0 = height s →
             detect_faces s0 = detect_faces s →
             BlurManager.manual_regions (blur_manager s0)
             = BlurManager.manual_regions (blur_manager s) →
             BlurManager.detected_regions (blur_manager s0)
             = BlurManager.detected_regions (blur_manager s) →
             BlurManager.default_sigma (blur_manager s0)
             = BlurManager.default_sigma (blur_manager s) →
             BlurManager.default_ksize (blur_manager s0)
             = BlurManager.default_ksize (blur_manager s) →
             same_setup s s0).
  { intros s0 H0 ? ? ? ? ? ? ? ? ?. unfold same_setup, setup, source.
    rewrite H0, Hc. simpl. rewrite Ho, Hd. congruence. }
  destruct r as [frame|]; simpl; [|by apply Hsrc].
  destruct (detection_results s !! i) as [d|]; simpl; [by apply Hsrc|].
  destruct (detect_faces s) eqn:Hdet; simpl; [|by apply Hsrc].
  match goal with
  | |- context [detect_and_store frame i ?s0] =>
      pose proof (detect_and_store_same frame i s0) as Hd2;
      assert (Hs0 : same_setup s s0) by (by apply Hsrc);
      destruct (detect_and_store frame i s0) as [s1 [[]|e]]
  end; simpl in *; eapply same_setup_trans; eauto.
Qed.

(** *** The compositor, as the processor calls it *)

Lemma apply_blur_composite frame d i bm :
  BlurManager.apply_blur frame d (Some i) bm
  = (BlurManager.set_current_frame_idx i bm, composite bm frame i).
Proof.
  unfold BlurManager.apply_blur, composite. rewrite CompositorFacts.blur_each_app. simpl.
  destruct (BlurManager.blur_each frame _); [|done].
  by destruct (BlurManager.blur_each a _).
Qed.

Lemma composite_same_setup (s s' : t) frame i :
  same_setup s s' →
  composite (blur_manager s') frame i = composite (blur_manager s) frame i.
Proof.
  unfold same_setup, setup, composite. intros H.
  injection H as _ _ _ _ _ Hm Hd _ _ _. by rewrite Hm, Hd.
Qed.

(** *** One iteration of the export loop *)

Lemma export_frame_unfold cb i (s : t) (out : VideoWriter Frame) :
  export_frame cb i (s, out)
  = match get_frame i s with
    | (s1, Raise e) => ((s1, out), Raise e)
    | (s1, Ok None) => ((s1, out), Ok tt)
    | (s1, Ok (Some frame)) =>
        let s2 :=
          set_blur_manager (BlurManager.set_current_frame_idx i (blur_manager s1)) s1 in
        match composite (blur_manager s1) frame i with
        | Raise e => ((s2, out), Raise e)
        | Ok processed =>
            ((s2, writer_write processed out),
             match cb with
             | Some callback => callback (i + 1) (frame_count s2)
             | None => Ok tt
             end)
        end
    end.
Proof.
  unfold export_frame, bind, zoom, gets, modify, lift_outcome, ret. simpl.
  destruct (get_frame i s) as [s1 [[frame|]|e]]; simpl; try done.
  rewrite apply_blur_composite. simpl.
  destruct (composite (blur_manager s1) frame i); simpl; [|done].
  by destruct cb.
Qed.

Lemma export_finally_unfold p (s : t) (out : VideoWriter Frame) :
  export_finally p (s, out)
  = match get_frame p s with
    | (s1, Ok _) => ((s1, writer_release out), Ok tt)
    | (s1, Raise e) => ((s1, writer_release out), Raise e)
    end.
Proof.
  unfold export_finally, bind, zoom, modify, ret. simpl.
  by destruct (get_frame p s) as [s1 [o|e]].
Qed.

(** *** Reading a frame *)

Lemma readable_same_setup (s s' : t) i : same_setup s s' → readable s' i = readable s i.
Proof.
  unfold same_setup, setup, readable. intros H.
  injection H as Hn _ _ _ _ _ _ _ _ Hsrc. by rewrite Hn, Hsrc.
Qed.

Lemma get_frame_readable i (s : t) :
  match (get_frame i s).2 with
  | Ok o => o = readable s i
  | Raise _ => is_Some (readable s i)
  end.
Proof.
  unfold get_frame, readable, source.
  destruct (cap s) as [c|] eqn:Hc; simpl; [|done].
  destruct (bool_decide (i < 0)) eqn:H1; simpl.
  { apply bool_decide_eq_true in H1. destruct (isOpened c); [|done].
    rewrite bool_decide_eq_false_2; [done|lia]. }
  destruct (bool_decide (i >= frame_count s)) eqn:H2; simpl.
  { apply bool_decide_eq_true in H2. destruct (isOpened c); [|done].
    rewrite bool_decide_eq_false_2; [done|lia]. }
  apply bool_decide_eq_false in H1, H2.
  unfold cap_read. simpl. destruct (isOpened c); simpl; [|done].
  rewrite bool_decide_eq_true_2 by lia.
  destruct (decode c i) as [frame|]; simpl; [|done].
  destruct (detection_results s !! i); simpl; [done|].
  destruct (detect_faces s); simpl; [|done].
  destruct (detect_and_store _ _ _) as [s1 [[]|e]]; simpl; [done|by eexists].
Qed.

(** A successful read leaves the processor on the frame read; the
    detection lookup comes after, so this holds even when it raises. *)
Lemma get_frame_position p (s : t) frame :
  readable s p = Some frame →
  current_frame_idx (get_frame p s).1 = p
  ∧ current_frame (get_frame p s).1 = Some frame
  ∧ BlurManager.current_frame_idx (blur_manager (get_frame p s).1) = p
  ∧ CAP_PROP_POS_FRAMES <$> cap (get_frame p s).1 = Some (p + 1).
Proof.
  unfold get_frame, readable, source.
  destruct (cap s) as [c|] eqn:Hc; simpl; [|done].
  destruct (isOpened c) eqn:Ho; [|done].
  case_bool_decide as Hr; [|done]. intros Hd.
  rewrite !bool_decide_eq_false_2 by lia. simpl.
  unfold cap_read. simpl. rewrite Ho, Hd. simpl.
  destruct (detection_results s !! p); simpl; [done|].
  destruct (detect_faces s); simpl; [|done].
  unfold detect_and_store. by destruct (face_detector_detect_faces frame).
Qed.

(** *** The export loop *)

Lemma expected_writes_same_setup (s s' : t) l :
  same_setup s s' → expected_writes s' l = expected_writes s l.
Proof.
  intros H. induction l as [|i l IH]; simpl; [done|].
  rewrite (readable_same_setup s s') by done.
  destruct (readable s i); [|done].
  rewrite (composite_same_setup s s') by done.
  by rewrite IH.
Qed.

Lemma set_blur_manager_idx_same (s : t) i :
  same_setup s
    (set_blur_manager (BlurManager.set_current_frame_idx i (blur_manager s)) s).
Proof. reflexivity. Qed.

Lemma export_loop_spec cb l (s : t) (out : VideoWriter Frame) :
  let res := for_each l (export_frame cb) (s, out) in
  same_setup s res.1.1
  ∧ released res.1.2 = released out
  ∧ writer_opened res.1.2 = writer_opened out
  ∧ ∃ pre, written res.1.2 = written out ++ pre
           ∧ pre `prefix_of` expected_writes s l
           ∧ (res.2 = Ok tt → pre = expected_writes s l).
Proof.
  revert s out. induction l as [|i l IH]; intros s out; simpl.
  { split_and!; try done. exists []. by rewrite app_nil_r. }
  unfold bind. rewrite export_frame_unfold.
  pose proof (get_frame_same i s) as Hsame.
  pose proof (get_frame_readable i s) as Hread.
  destruct (get_frame i s) as [s1 [[frame|]|e]]; simpl in *.
  - rewrite <- Hread.
    rewrite <- (composite_same_setup s s1) by done.
    assert (Hs2 : same_setup s
              (set_blur_manager
                 (BlurManager.set_current_frame_idx i (blur_manager s1)) s1))
      by (eapply same_setup_trans; [done|apply set_blur_manager_idx_same]).
    destruct (composite (blur_manager s1) frame i) as [processed|e]; simpl.
    + destruct (match cb with Some callback => _ | None => _ end) as [[]|e]; simpl.
      * match goal with
        | |- context [for_each l _ (?s2, ?o2)] =>
            destruct (IH s2 o2) as (H1 & H2 & H3 & pre & H4 & H5 & H6);
            rewrite (expected_writes_same_setup s s2) in H5, H6 by done
        end.
        split_and!; try done.
        { by eapply same_setup_trans. }
        exists (processed :: pre). simpl in H4. rewrite <- app_assoc in H4.
        split_and!; [done|by apply prefix_cons|].
        intros Hr. by rewrite H6.
      * split_and!; try done. exists [processed].
        split_and!; [done| |discriminate].
        apply prefix_cons, prefix_nil.
    + split_and!; try done.
      exists []. rewrite app_nil_r. split_and!; [done|done|discriminate].
  - rewrite <- Hread.
    destruct (IH s1 out) as (H1 & H2 & H3 & pre & H4 & H5 & H6).
    rewrite (expected_writes_same_setup s s1) in H5, H6 by done.
    split_and!; try done. { by eapply same_setup_trans. }
    by exists pre.
  - split_and!; try done. exists []. rewrite app_nil_r.
    split_and!; [done|apply prefix_nil|discriminate].
Qed.

(** *** [save_video] as a whole *)

Lemma save_video_no_sink path cb (s : t) :
  (save_video path cb s).1.2 = None →
  (save_video path cb s).1.1 = s
  ∧ (cap s = None ∧ (save_video path cb s).2 = Ok false
     ∨ cap s ≠ None ∧ (fps s = None ∨ width s = None ∨ height s = None)
       ∧ (save_video path cb s).2 = Raise (AttributeError "fps")).
Proof.
  unfold save_video. destruct (cap s) as [c|]; [|by auto].
  destruct (fps s) as [f|], (width s) as [w|], (height s) as [h|]; simpl;
    try (intros _; split; [done|right]; split; [done|]; split; [|done]; by auto).
  unfold try_finally.
  destruct (for_each _ _ _) as [[s1 o1] r1]. rewrite export_finally_unfold.
  destruct (get_frame _ s1) as [s2 [o|e]]; simpl; [by destruct r1|done].
Qed.

Lemma save_video_sink path cb (s : t) out :
  (save_video path cb s).1.2 = Some out →
  let res := save_video path cb s in
  let l := seqZ 0 (frame_count s) in
  same_setup s res.1.1
  ∧ released out = true
  ∧ (∃ f w h, fps s = Some f ∧ width s = Some w ∧ height s = Some h
              ∧ writer_opened out = cv2_VideoWriter path "mp4v" f (w, h))
  ∧ written out `prefix_of` expected_writes s l
  ∧ (res.2 = Ok true → written out = expected_writes s l)
  ∧ res.2 ≠ Ok false
  ∧ (∀ frame, readable s (current_frame_idx s) = Some frame →
       current_frame_idx res.1.1 = current_frame_idx s
       ∧ current_frame res.1.1 = Some frame
       ∧ BlurManager.current_frame_idx (blur_manager res.1.1) = current_frame_idx s
       ∧ CAP_PROP_POS_FRAMES <$> cap res.1.1 = Some (current_frame_idx s + 1)).
Proof.
  unfold save_video. destruct (cap s) as [c|] eqn:Hc; [|done].
  destruct (fps s) as [f|] eqn:Hf, (width s) as [w|] eqn:Hw,
           (height s) as [h|] eqn:Hh; try done.
  unfold try_finally.
  match goal with
  | |- context [for_each ?l ?b (s, ?o)] =>
      pose proof (export_loop_spec cb l s o) as (H1 & H2 & H3 & pre & H4 & H5 & H6);
      destruct (for_each l b (s, o)) as [[s1 o1] r1]
  end.
  simpl in *. subst. rewrite export_finally_unfold.
  pose proof (get_frame_same (current_frame_idx s) s1) as Hfin.
  pose proof (get_frame_position (current_frame_idx s) s1) as Hpos.
  destruct (get_frame (current_frame_idx s) s1) as [s2 [o|e]]; simpl in *;
    [destruct r1 as [[]|e]; simpl|]; intros [= <-]; simpl;
    (split_and!; try done;
     try (by eapply same_setup_trans);
     try (by exists f, w, h);
     try (intros _; by apply H6);
     try (intros frame Hr; apply Hpos; by rewrite (readable_same_setup s s1))).
Qed.

(** *** The processor stays on a frame the source supplies *)

Lemma get_frame_idx i (s : t) :
  current_frame_idx (get_frame i s).1
  = match readable s i with
    | Some _ => i
    | None => current_frame_idx s
    end.
Proof.
  unfold get_frame, readable, source.
  destruct (cap s) as [c|]; simpl; [|done].
  destruct (bool_decide (i < 0)) eqn:H1; simpl.
  { apply bool_decide_eq_true in H1. destruct (isOpened c); [|done].
    by rewrite bool_decide_eq_false_2 by lia. }
  destruct (bool_decide (i >= frame_count s)) eqn:H2; simpl.
  { apply bool_decide_eq_true in H2. destruct (isOpened c); [|done].
    by rewrite bool_decide_eq_false_2 by lia. }
  apply bool_decide_eq_false in H1, H2.
  unfold cap_read. simpl. destruct (isOpened c); simpl; [|done].
  rewrite bool_decide_eq_true_2 by lia.
  destruct (decode c i) as [frame|]; simpl; [|done].
  destruct (detection_results s !! i); simpl; [done|].
  destruct (detect_faces s); simpl; [|done].
  unfold detect_and_store. by destruct (face_detector_detect_faces frame).
Qed.

(** Once the processor is on a frame the source supplies, every
    [get_frame], successful or not, leaves it on such a frame. *)
Lemma get_frame_keeps_position_readable i (s : t) :
  is_Some (readable s (current_frame_idx s)) →
  is_Some (readable (get_frame i s).1 (current_frame_idx (get_frame i s).1)).
Proof.
  intros Hs. rewrite (readable_same_setup s) by apply get_frame_same.
  rewrite get_frame_idx. destruct (readable s i) eqn:Hr; [|done].
  by rewrite Hr.
Qed.

(** C10.  [apply_blur] never reads its [detected_faces] argument: two
    calls that differ only there return the same frame, or raise the
    same exception, and leave the same ledger (and, on array objects,
    the same store).  For the export it
    follows that the detection cache does not reach the sink: started
    from two processors that differ only in [detection_results] and
    [detected_faces], both exports construct a sink or neither does, and
    what each writes is an initial part of one and the same list, the
    readable frames composited with the regions of the ledger; two
    exports that both return [True] have written the same frames. *)
Theorem detected_faces_argument_is_dead :
  (∀ (frame : Frame) d1 d2 idx bm,
     BlurManager.apply_blur frame d1 idx bm = BlurManager.apply_blur frame d2 idx bm)
  ∧ (∀ frame d1 d2 idx (st : BlurManager.t * BlurManager.store (Frame := Frame)),
       BlurManager.apply_blur_obj frame d1 idx st
       = BlurManager.apply_blur_obj frame d2 idx st)
  ∧ (∀ path cb (s : t) m d,
       let s' := set_detection_results m (set_detected_faces d s) in
       let expected := expected_writes s (seqZ 0 (frame_count s)) in
       let run := save_video path cb s in
       let run' := save_video path cb s' in
       match run.1.2, run'.1.2 with
       | Some out, Some out' =>
           written out `prefix_of` expected
           ∧ written out' `prefix_of` expected
           ∧ (run.2 = Ok true → run'.2 = Ok true → written out = written out')
       | None, None => True
       | _, _ => False
       end).
Proof.
  split; [reflexivity|]. split; [reflexivity|].
  intros path cb s m d s' expected run run'. subst run run' expected.
  assert (Hs : same_setup s s') by reflexivity.
  destruct ((save_video path cb s).1.2) as [out|] eqn:Hout;
    destruct ((save_video path cb s').1.2) as [out'|] eqn:Hout'; try done.
  - destruct (save_video_sink path cb s out Hout) as (_ & _ & _ & Hp & He & _).
    destruct (save_video_sink path cb s' out' Hout') as (_ & _ & _ & Hp' & He' & _).
    change (frame_count s') with (frame_count s) in Hp', He'.
    rewrite (expected_writes_same_setup s s') in Hp', He' by done.
    split_and!; try done. intros H1 H2. by rewrite He, He'.
  - destruct (save_video_sink path cb s out Hout)
      as (_ & _ & (f & w & h & Hf & Hw & Hh & _) & _).
    destruct (save_video_no_sink path cb s' Hout') as [_ [[Hc _]|[_ [Hn _]]]].
    + revert Hout. unfold save_video. change (cap s) with (cap s'). by rewrite Hc.
    + change (fps s') with (fps s) in Hn. change (width s') with (width s) in Hn.
      change (height s') with (height s) in Hn. rewrite Hf, Hw, Hh in Hn.
      by destruct Hn as [?|[?|?]].
  - destruct (save_video_sink path cb s' out' Hout')
      as (_ & _ & (f & w & h & Hf & Hw & Hh & _) & _).
    destruct (save_video_no_sink path cb s Hout) as [_ [[Hc _]|[_ [Hn _]]]].
    + revert Hout'. unfold save_video. change (cap s') with (cap s). by rewrite Hc.
    + change (fps s') with (fps s) in Hf. change (width s') with (width s) in Hw.
      change (height s') with (height s) in Hh. rewrite Hf, Hw, Hh in Hn.
      by destruct Hn as [?|[?|?]].
Qed.

(** C5, as the code has it.  For a frame index [i] whose frame the
    source supplies, [get_frame i] looks the detections up as follows.
    If the cache has an entry for [i], that entry becomes the current
    detection, the cache is unchanged and the detector is not called,
    whether detection is enabled or not.  On a miss with detection
    enabled the detector is called once, on that frame, and its result,
    [None] included, is stored under [i]; if it raises, nothing is
    stored.  On a miss with detection disabled the current detection is
    [None] and nothing is stored: the cache still has no entry for [i],
    and the detector is not called. *)
Theorem get_frame_detection_lookup i (s : t) frame :
  readable s i = Some frame →
  let res := get_frame i s in
  match detection_results s !! i with
  | Some d =>
      res.2 = Ok (Some frame)
      ∧ detected_faces res.1 = d
      ∧ detection_results res.1 = detection_results s
      ∧ detector_calls res.1 = detector_calls s
  | None =>
      if detect_faces s then
        detector_calls res.1 = detector_calls s ++ [frame]
        ∧ match face_detector_detect_faces frame with
          | Ok boxes =>
              res.2 = Ok (Some frame)
              ∧ detected_faces res.1 = boxes
              ∧ detection_results res.1 = <[i := boxes]> (detection_results s)
          | Raise e =>
              res.2 = Raise e
              ∧ detection_results res.1 = detection_results s
          end
      else
        res.2 = Ok (Some frame)
        ∧ detected_faces res.1 = None
        ∧ detection_results res.1 = detection_results s
        ∧ detection_results res.1 !! i = None
        ∧ detector_calls res.1 = detector_calls s
  end.
Proof.
  unfold get_frame, readable, source.
  destruct (cap s) as [c|] eqn:Hc; simpl; [|done].
  destruct (isOpened c) eqn:Ho; [|done].
  case_bool_decide as Hr; [|done]. intros Hd.
  rewrite !bool_decide_eq_false_2 by lia. simpl.
  unfold cap_read. simpl. rewrite Ho, Hd. simpl.
  destruct (detection_results s !! i) eqn:Hres; simpl; [done|].
  destruct (detect_faces s); simpl; [|done].
  unfold detect_and_store. by destruct (face_detector_detect_faces frame).
Qed.

(** [open_video] does not touch the region collections. *)
Lemma open_video_ledger path (s : t) :
  BlurManager.manual_regions (blur_manager (open_video path s).1)
  = BlurManager.manual_regions (blur_manager s)
  ∧ BlurManager.detected_regions (blur_manager (open_video path s).1)
    = BlurManager.detected_regions (blur_manager s).
Proof.
  unfold open_video.
  destruct (isOpened (cv2_VideoCapture path)); simpl; [|done].
  destruct (cap_read (cv2_VideoCapture path)) as [c [frame|]]; simpl; [|done].
  destruct (detect_faces s); simpl; [|done].
  unfold detect_and_store. simpl.
  by destruct (face_detector_detect_faces frame).
Qed.

(** C4, as the code has it.  When [open_video] returns [True] the render
    cache is empty, and the detection cache holds nothing but, when
    detection is enabled and the first frame could be read, the
    detector's result for that frame under index 0. *)
Theorem open_video_clears_caches path (s : t) :
  (open_video path s).2 = Ok true →
  let s' := (open_video path s).1 in
  processed_frames s' = ∅
  ∧ detection_results s'
    = match (cap_read (cv2_VideoCapture path)).2 with
      | Some frame =>
          if detect_faces s then
            match face_detector_detect_faces frame with
            | Ok boxes => {[0 := boxes]}
            | Raise _ => ∅
            end
          else ∅
      | None => ∅
      end.
Proof.
  unfold open_video.
  destruct (isOpened (cv2_VideoCapture path)); simpl; [|done].
  destruct (cap_read (cv2_VideoCapture path)) as [c [frame|]]; simpl; [|done].
  destruct (detect_faces s); simpl; [|done].
  unfold detect_and_store. simpl.
  by destruct (face_detector_detect_faces frame).
Qed.

End Facts.

(** C3 (the code does not do this).  [save_video] never tests whether
    the sink opened.  With a video loaded it returns [True] or raises,
    never [False]; and on the processor [Fixture.opened], with a path at
    which no sink opens, it returns [True] after passing both frames to
    [write] on the unopened sink. *)
Theorem save_video_ignores_unopened_sink :
  (∀ Frame Float (cv : Cv2 Frame) (co : Collaborators Frame Float)
     path cb (s : VideoProcessor.t (Frame := Frame) (Float := Float)),
     cap s ≠ None → (save_video path cb s).2 ≠ Ok false)
  ∧ (let res := save_video "/no/such/dir/out.mp4" None Fixture.opened in
     res.2 = Ok true
     ∧ (writer_opened <$> res.1.2) = Some false
     ∧ (written <$> res.1.2) = Some [Fixture.Raw 0; Fixture.Raw 1]).
Proof.
  split.
  - intros Frame Float cv co path cb s Hc.
    destruct ((save_video path cb s).1.2) as [out|] eqn:Hout.
    + by destruct (save_video_sink path cb s out Hout) as (_ & _ & _ & _ & _ & H & _).
    + destruct (save_video_no_sink path cb s Hout) as [_ [[? _]|[_ [_ ->]]]]; done.
  - vm_compute. done.
Qed.

(** Two exports of [Fixture.opened]: one in which the callback raises
    at the second frame, one that completes. *)
Example save_video_exit_paths :
  (save_video "out.mp4" (Some Fixture.failing_callback) Fixture.opened).2
  = Raise (ExternalError "progress_callback" 0)
  ∧ (released <$> (save_video "out.mp4" (Some Fixture.failing_callback)
                     Fixture.opened).1.2) = Some true
  ∧ current_frame_idx
      (save_video "out.mp4" (Some Fixture.failing_callback) Fixture.opened).1.1 = 0
  ∧ (save_video "out.mp4" None Fixture.opened).2 = Ok true
  ∧ (written <$> (save_video "out.mp4" None Fixture.opened).1.2)
    = Some [Fixture.Raw 0; Fixture.Raw 1].
Proof. vm_compute. done. Qed.

(** C5 as stated fails on a miss with detection disabled: after
    [get_frame 1] on [Fixture.opened_without_detection] the cache has no
    entry for frame 1, and a lookup of the same frame once detection is
    enabled calls the detector. *)
Lemma get_frame_miss_disabled_stores_nothing :
  let s1 := (get_frame 1 Fixture.opened_without_detection).1 in
  (get_frame 1 Fixture.opened_without_detection).2 = Ok (Some (Fixture.Raw 1))
  ∧ detection_results s1 !! 1 = None
  ∧ detector_calls s1 = []
  ∧ detector_calls (get_frame 1 (set_detect_faces true s1)).1 = [Fixture.Raw 1].
Proof. vm_compute. done. Qed.

Lemma get_frame_detection_lookup_witness :
  let res := get_frame 1 Fixture.opened in
  detector_calls res.1 = detector_calls Fixture.opened ++ [Fixture.Raw 1]
  ∧ res.2 = Ok (Some (Fixture.Raw 1))
  ∧ detected_faces res.1 = None
  ∧ detection_results res.1 = <[1 := None]> (detection_results Fixture.opened).
Proof.
  refine (get_frame_detection_lookup 1 Fixture.opened (Fixture.Raw 1) _).
  vm_compute. reflexivity.
Defined.

(** C4 as stated fails: [open_video] on a processor whose ledger holds
    regions returns [True] with the detector's result for frame 0 in the
    detection cache, and with both region collections as they were. *)
Lemma open_video_leaves_entries :
  let res := open_video "clip.mp4" Fixture.with_ledger in
  res.2 = Ok true
  ∧ detection_results res.1 !! 0 = Some (Some [(10, 10, 60, 60)])
  ∧ BlurManager.manual_regions (blur_manager res.1) !! 0
    = Some [(5, 5, 40, 40, 30, 31)]
  ∧ BlurManager.detected_regions (blur_manager res.1) !! 0
    = Some [(10, 10, 60, 60, 30, 31)].
Proof. vm_compute. done. Qed.

Lemma open_video_clears_caches_witness :
  let s' := (open_video "clip.mp4" Fixture.with_ledger).1 in
  processed_frames s' = ∅
  ∧ detection_results s' = {[0 := Some [(10, 10, 60, 60)]]}.
Proof.
  refine (open_video_clears_caches "clip.mp4" Fixture.with_ledger _).
  vm_compute. reflexivity.
Defined.

End VideoProcessorFacts.


(** ** Writes to the ledger: corners and kernel sizes *)

Module LedgerWriteFacts.
Import BlurManager.

Lemma add_manual_region_to_frame_regions s frame_idx x1 y1 x2 y2 sigma ksize :
  manual_regions (add_manual_region_to_frame s frame_idx x1 y1 x2 y2 sigma ksize)
  = <[frame_idx := default [] (manual_regions s !! frame_idx)
                   ++ [(x1, y1, x2, y2, sigma, ksize)]]> (manual_regions s).
Proof.
  unfold add_manual_region_to_frame. simpl.
  destruct (manual_regions s !! frame_idx) as [l|] eqn:E; simpl.
  - by rewrite ?E.
  - by rewrite lookup_insert_eq, insert_insert_eq.
Qed.

Lemma add_manual_region_to_frame_others s frame_idx x1 y1 x2 y2 sigma ksize :
  detected_regions (add_manual_region_to_frame s frame_idx x1 y1 x2 y2 sigma ksize)
  = detected_regions s
  ∧ default_sigma (add_manual_region_to_frame s frame_idx x1 y1 x2 y2 sigma ksize)
    = default_sigma s
  ∧ default_ksize (add_manual_region_to_frame s frame_idx x1 y1 x2 y2 sigma ksize)
    = default_ksize s.
Proof. done. Qed.

Section Facts.
Context {Frame Float : Type} `{!Cv2 Frame} `{!Collaborators Frame Float}.

Abbreviation vp_t := (VideoProcessor.t (Frame := Frame) (Float := Float)).
Abbreviation ui_t := (FaceBlurUI.t (Frame := Frame) (Float := Float)).

(** The regions [materialize_detected] creates carry the defaults as
    they are. *)
Lemma stamped_defaults (boxes : list Box) sigma ksize acc :
  Forall (λ r, sigma_of r = sigma ∧ ksize_of r = ksize) acc →
  Forall (λ r, sigma_of r = sigma ∧ ksize_of r = ksize)
    (foldl (fun l box =>
              let '(x1, y1, x2, y2) := box in
              l ++ [(x1, y1, x2, y2, sigma, ksize)])
           acc boxes).
Proof.
  revert acc. induction boxes as [|[[[x1 y1] x2] y2] boxes IH]; intros acc Hacc;
    simpl; [done|].
  apply IH. apply Forall_app. split; [done|]. by apply Forall_singleton.
Qed.

Lemma materialize_detected_regions (s : vp_t) i l :
  detected_regions (VideoProcessor.blur_manager (VideoProcessor.materialize_detected s)) !! i
  = Some l →
  detected_regions (VideoProcessor.blur_manager s) !! i = Some l
  ∨ (detected_regions (VideoProcessor.blur_manager s) !! i = None
     ∧ i = VideoProcessor.current_frame_idx s
     ∧ Forall (λ r, sigma_of r = default_sigma (VideoProcessor.blur_manager s)
                    ∧ ksize_of r = default_ksize (VideoProcessor.blur_manager s)) l).
Proof.
  unfold VideoProcessor.materialize_detected.
  destruct (VideoProcessor.detected_faces s) as [boxes|]; [|by left].
  destruct (detected_regions (VideoProcessor.blur_manager s)
              !! VideoProcessor.current_frame_idx s) eqn:E; [by left|].
  simpl. destruct (decide (i = VideoProcessor.current_frame_idx s)) as [->|Hne].
  - rewrite lookup_insert_eq. intros [= <-]. right.
    split_and!; [done|done|]. by apply stamped_defaults.
  - rewrite lookup_insert_ne by done. by left.
Qed.

Lemma materialize_detected_others (s : vp_t) :
  let s' := VideoProcessor.materialize_detected s in
  manual_regions (VideoProcessor.blur_manager s')
  = manual_regions (VideoProcessor.blur_manager s)
  ∧ default_sigma (VideoProcessor.blur_manager s')
    = default_sigma (VideoProcessor.blur_manager s)
  ∧ default_ksize (VideoProcessor.blur_manager s')
    = default_ksize (VideoProcessor.blur_manager s)
  ∧ VideoProcessor.current_frame_idx s' = VideoProcessor.current_frame_idx s
  ∧ VideoProcessor.current_frame s' = VideoProcessor.current_frame s.
Proof.
  unfold VideoProcessor.materialize_detected.
  destruct (VideoProcessor.detected_faces s); [|done].
  by destruct (detected_regions (VideoProcessor.blur_manager s)
                 !! VideoProcessor.current_frame_idx s).
Qed.

(** Rendering the current frame writes no manual region and no default. *)
Lemma process_current_frame_ledger (s : vp_t) :
  let s' := (VideoProcessor.process_current_frame s).1 in
  manual_regions (VideoProcessor.blur_manager s')
  = manual_regions (VideoProcessor.blur_manager s)
  ∧ default_sigma (VideoProcessor.blur_manager s')
    = default_sigma (VideoProcessor.blur_manager s)
  ∧ default_ksize (VideoProcessor.blur_manager s')
    = default_ksize (VideoProcessor.blur_manager s).
Proof.
  unfold VideoProcessor.process_current_frame.
  destruct (VideoProcessor.current_frame s) as [frame|]; [|done].
  destruct (VideoProcessor.processed_frames s !! _); [done|].
  pose proof (materialize_detected_others s) as (H1 & H2 & H3 & _).
  rewrite CompositorFacts.apply_blur_value.
  destruct (blur_each frame _); simpl; by rewrite <- H1, <- H2, <- H3.
Qed.

Lemma show_frame_ledger (ui : ui_t) :
  let ui' := (FaceBlurUI.show_frame ui).1 in
  manual_regions (FaceBlurUI.blur_manager ui')
  = manual_regions (FaceBlurUI.blur_manager ui)
  ∧ default_sigma (FaceBlurUI.blur_manager ui')
    = default_sigma (FaceBlurUI.blur_manager ui)
  ∧ default_ksize (FaceBlurUI.blur_manager ui')
    = default_ksize (FaceBlurUI.blur_manager ui)
  ∧ FaceBlurUI.blur_ksize ui' = FaceBlurUI.blur_ksize ui
  ∧ FaceBlurUI.blur_sigma ui' = FaceBlurUI.blur_sigma ui.
Proof.
  unfold FaceBlurUI.show_frame, FaceBlurUI.blur_manager.
  destruct (VideoProcessor.current_frame (FaceBlurUI.video_processor ui)); [|done].
  pose proof (process_current_frame_ledger (FaceBlurUI.video_processor ui))
    as (H1 & H2 & H3).
  by destruct (VideoProcessor.process_current_frame (FaceBlurUI.video_processor ui))
    as [vp [o|e]].
Qed.

(** The drag-release handler either adds nothing, or adds the rectangle
    spanned by the drag origin and the release point, smaller corner
    first, with the slider values, the kernel size made odd. *)
Lemma on_canvas_release_regions (ui : ui_t) end_x end_y :
  let ui' := (FaceBlurUI.on_canvas_release end_x end_y ui).1 in
  let i := VideoProcessor.current_frame_idx (FaceBlurUI.video_processor ui) in
  let before := manual_regions (FaceBlurUI.blur_manager ui) in
  let x1 := FaceBlurUI.start_x ui `min` end_x in
  let y1 := FaceBlurUI.start_y ui `min` end_y in
  let x2 := FaceBlurUI.start_x ui `max` end_x in
  let y2 := FaceBlurUI.start_y ui `max` end_y in
  manual_regions (FaceBlurUI.blur_manager ui') = before
  ∨ (FaceBlurUI.drawing ui = true ∧ 10 <= x2 - x1 ∧ 10 <= y2 - y1
     ∧ manual_regions (FaceBlurUI.blur_manager ui')
       = <[i := default [] (before !! i)
                ++ [(x1, y1, x2, y2, FaceBlurUI.blur_sigma ui,
                     ensure_odd (FaceBlurUI.blur_ksize ui))]]> before).
Proof.
  unfold FaceBlurUI.on_canvas_release.
  destruct (FaceBlurUI.drawing ui) eqn:Hdraw; simpl; [|by left].
  destruct (VideoProcessor.current_frame (FaceBlurUI.video_processor ui));
    [|by left].
  case_bool_decide as Hx; simpl; [by left|].
  case_bool_decide as Hy; simpl; [by left|].
  right. split_and!; [done|lia|lia|].
  match goal with
  | |- context [FaceBlurUI.show_frame ?u] =>
      pose proof (show_frame_ledger u) as (H1 & _)
  end.
  simpl in H1. rewrite H1. unfold FaceBlurUI.blur_manager. simpl.
  apply add_manual_region_to_frame_regions.
Qed.

(** The slider handler passes the slider values on, the kernel size
    made odd, and the ledger rewrites the defaults and every manual
    region with them. *)
Lemma ui_update_blur_params_ledger (ui : ui_t) :
  let ui' := (FaceBlurUI.update_blur_params ui).1 in
  let sigma := FaceBlurUI.blur_sigma ui in
  let ksize := ensure_odd (FaceBlurUI.blur_ksize ui) in
  default_sigma (FaceBlurUI.blur_manager ui') = sigma
  ∧ default_ksize (FaceBlurUI.blur_manager ui') = ksize
  ∧ FaceBlurUI.blur_ksize ui' = ksize
  ∧ ∀ i, manual_regions (FaceBlurUI.blur_manager ui') !! i
         = (fmap (restamp sigma ksize))
             <$> (manual_regions (FaceBlurUI.blur_manager ui) !! i).
Proof.
  unfold FaceBlurUI.update_blur_params.
  rewrite <- (even_test_is_ensure_odd (FaceBlurUI.blur_ksize ui)).
  destruct (FaceBlurUI.blur_ksize ui mod 2 =? 0) eqn:Hk; simpl;
    match goal with
    | |- context [FaceBlurUI.show_frame ?u] =>
        pose proof (show_frame_ledger u) as (H1 & H2 & H3 & H4 & _)
    end;
    simpl in *; rewrite H1, H2, H3, H4; unfold FaceBlurUI.blur_manager; simpl;
    (split_and!; try done);
    intros i; rewrite lookup_fmap;
    (destruct (manual_regions _ !! i); simpl; [|done]);
    by rewrite BlurManagerFacts.restamp_list_fmap.
Qed.

(** C6, as the code has it.  [add_manual_region_to_frame] appends the
    region with the four coordinates exactly as it receives them.  The
    corners are ordered by its caller: whatever the drag origin and the
    release point, the drag-release handler either adds no region or
    adds one whose corners are the per-axis minimum and maximum of the
    two points, so that [x1 <= x2] and [y1 <= y2]. *)
Theorem manual_corners_stored_as_supplied :
  (∀ s frame_idx x1 y1 x2 y2 sigma ksize,
     manual_regions (add_manual_region_to_frame s frame_idx x1 y1 x2 y2 sigma ksize)
       !! frame_idx
     = Some (default [] (manual_regions s !! frame_idx)
             ++ [(x1, y1, x2, y2, sigma, ksize)]))
  ∧ (∀ (ui : ui_t) end_x end_y,
       let ui' := (FaceBlurUI.on_canvas_release end_x end_y ui).1 in
       let i := VideoProcessor.current_frame_idx (FaceBlurUI.video_processor ui) in
       let before := manual_regions (FaceBlurUI.blur_manager ui) in
       let after := manual_regions (FaceBlurUI.blur_manager ui') in
       after = before
       ∨ ∃ x1 y1 x2 y2 sigma ksize,
           after = <[i := default [] (before !! i)
                           ++ [(x1, y1, x2, y2, sigma, ksize)]]> before
           ∧ x1 = FaceBlurUI.start_x ui `min` end_x
           ∧ y1 = FaceBlurUI.start_y ui `min` end_y
           ∧ x2 = FaceBlurUI.start_x ui `max` end_x
           ∧ y2 = FaceBlurUI.start_y ui `max` end_y
           ∧ x1 <= x2 ∧ y1 <= y2).
Proof.
  split.
  - intros. by rewrite add_manual_region_to_frame_regions, lookup_insert_eq.
  - intros ui end_x end_y ui' i before after.
    destruct (on_canvas_release_regions ui end_x end_y) as [H|(_ & Hx & Hy & H)];
      [by left|right].
    eexists _, _, _, _, _, _. split; [exact H|]. split_and!; try done; lia.
Qed.

(** C2, as the code has it.  For every integer [k]: the three write
    paths of the ledger store the kernel size as they receive it
    ([add_manual_region_to_frame] and [update_blur_params] store [k],
    and regions created from detections carry the current default
    unchanged).  The value [k] if [k] is odd and [k+1] if it is even is
    the kernel size the compositor blurs with when it reads a region
    stored with [k], and the one the two handlers pass on when the
    kernel-size slider stands at [k]. *)
Theorem kernel_size_stored_as_supplied (k : Z) :
  let odd_k := if Z.odd k then k else k + 1 in
  (∀ s frame_idx x1 y1 x2 y2 sigma,
     manual_regions (add_manual_region_to_frame s frame_idx x1 y1 x2 y2 sigma k)
       !! frame_idx
     = Some (default [] (manual_regions s !! frame_idx) ++ [(x1, y1, x2, y2, sigma, k)]))
  ∧ (∀ s sigma,
       default_ksize (update_blur_params s sigma k) = k
       ∧ ∀ i, manual_regions (update_blur_params s sigma k) !! i
              = (fmap (restamp sigma k)) <$> (manual_regions s !! i))
  ∧ (∀ (s : vp_t) i l,
       default_ksize (VideoProcessor.blur_manager s) = k →
       detected_regions (VideoProcessor.blur_manager s) !! i = None →
       detected_regions
         (VideoProcessor.blur_manager (VideoProcessor.materialize_detected s)) !! i
       = Some l →
       Forall (λ r, ksize_of r = k) l)
  ∧ (∀ (a : Frame) x1 y1 x2 y2 sigma,
       blur_region a (x1, y1, x2, y2, sigma, k)
       = match GaussianBlur (slice a y1 y2 x1 x2) (odd_k, odd_k) sigma with
         | Ok blurred => Ok (slice_assign a y1 y2 x1 x2 blurred)
         | Raise e => Raise e
         end)
  ∧ (∀ (ui : ui_t), FaceBlurUI.blur_ksize ui = k →
       default_ksize
         (FaceBlurUI.blur_manager (FaceBlurUI.update_blur_params ui).1) = odd_k
       ∧ ∀ end_x end_y,
           let ui' := (FaceBlurUI.on_canvas_release end_x end_y ui).1 in
           let i := VideoProcessor.current_frame_idx (FaceBlurUI.video_processor ui) in
           let before := manual_regions (FaceBlurUI.blur_manager ui) in
           manual_regions (FaceBlurUI.blur_manager ui') = before
           ∨ ∃ x1 y1 x2 y2 sigma,
               manual_regions (FaceBlurUI.blur_manager ui')
               = <[i := default [] (before !! i)
                        ++ [(x1, y1, x2, y2, sigma, odd_k)]]> before).
Proof.
  intros odd_k. subst odd_k. rewrite <- ensure_odd_spec.
  split_and!.
  - intros. by rewrite add_manual_region_to_frame_regions, lookup_insert_eq.
  - intros s sigma. split; [done|].
    intros i. apply BlurManagerFacts.update_blur_params_manual.
  - intros s i l Hk Hnone Hl.
    apply materialize_detected_regions in Hl as [Hl|(_ & _ & Hl)]; [congruence|].
    eapply Forall_impl; [exact Hl|]. simpl. intros r [_ Hr]. congruence.
  - done.
  - intros ui Hk. split.
    + pose proof (ui_update_blur_params_ledger ui) as (_ & H & _). by rewrite <- Hk.
    + intros end_x end_y ui' i before.
      destruct (on_canvas_release_regions ui end_x end_y) as [H|(_ & _ & _ & H)];
        [by left|right].
      eexists _, _, _, _, _. rewrite <- Hk. exact H.
Qed.

End Facts.

(** C2 as stated fails: the ledger stores an even kernel size as it is,
    on manual addition and on a defaults update. *)
Lemma ledger_stores_even_ksize :
  manual_regions (add_manual_region_to_frame init 0 0 0 10 10 30 4) !! 0
  = Some [(0, 0, 10, 10, 30, 4)]
  ∧ default_ksize (update_blur_params Fixture.ledger 30 4) = 4
  ∧ manual_regions (update_blur_params Fixture.ledger 30 4) !! 0
    = Some [(5, 5, 40, 40, 30, 4)].
Proof. vm_compute. done. Qed.

(** The slider handler on [Fixture.ui], whose slider stands at 30. *)
Lemma kernel_size_stored_as_supplied_witness :
  default_ksize (FaceBlurUI.blur_manager (FaceBlurUI.update_blur_params Fixture.ui).1)
  = 31.
Proof.
  exact (proj1 (proj2 (proj2 (proj2 (proj2 (kernel_size_stored_as_supplied 30))))
                 Fixture.ui eq_refl)).
Defined.

(** C6 as stated fails: corners given in the order of a drag towards the
    upper left are stored in that order. *)
Lemma ledger_stores_corners_unordered :
  manual_regions (add_manual_region_to_frame init 0 60 60 10 10 30 31) !! 0
  = Some [(60, 60, 10, 10, 30, 31)].
Proof. vm_compute. done. Qed.

(** The same drag through the handler: from [(60, 60)] to [(10, 20)]. *)
Example on_canvas_release_run :
  let ui' := (FaceBlurUI.on_canvas_release 10 20 Fixture.ui).1 in
  manual_regions (FaceBlurUI.blur_manager ui') !! 0 = Some [(10, 20, 60, 60, 30, 31)]
  ∧ FaceBlurUI.drawing ui' = false.
Proof. vm_compute. done. Qed.

End LedgerWriteFacts.

(** * Further properties of the code *)

(** ** Point removal, and how the ledger operations compose *)

Module ToggleFacts.
Import BlurManager.

Lemma first_hit_shift x y l i :
  first_hit x y l (S i) = S <$> first_hit x y l i.
Proof.
  revert i. induction l as [|r l IH]; intros i; simpl; [done|].
  destruct (contains_point x y r); [done|]. apply IH.
Qed.

(** The loop stops at the first region that contains the point. *)
Lemma first_hit_Some x y l i :
  first_hit x y l 0 = Some i ↔
  (∃ r, l !! i = Some r ∧ contains_point x y r = true)
  ∧ ∀ j r, (j < i)%nat → l !! j = Some r → contains_point x y r = false.
Proof.
  revert i. induction l as [|r0 l IH]; intros i; simpl.
  { split; [done|]. by intros [(r & Hr & _) _]. }
  destruct (contains_point x y r0) eqn:E.
  - split.
    + intros [= <-]. split; [by exists r0|]. intros j r Hj. lia.
    + intros [_ Hfirst]. destruct i as [|i]; [done|].
      specialize (Hfirst 0%nat r0 ltac:(lia) eq_refl). congruence.
  - rewrite first_hit_shift. split.
    + destruct (first_hit x y l 0) as [k|] eqn:Hk; [|done].
      intros [= <-]. destruct (proj1 (IH k) eq_refl) as [Hex Hfirst].
      split; [done|]. intros [|j] r Hj; simpl.
      * by intros [= <-].
      * apply Hfirst. lia.
    + intros [(r & Hr & Hc) Hfirst]. destruct i as [|i].
      { simpl in Hr. congruence. }
      simpl in Hr.
      assert (first_hit x y l 0 = Some i) as ->; [|done].
      apply IH. split; [by exists r|].
      intros j r' Hj Hr'. apply (Hfirst (S j) r'); [lia|done].
Qed.

Lemma first_hit_None x y l i :
  first_hit x y l i = None ↔ Forall (λ r, contains_point x y r = false) l.
Proof.
  revert i. induction l as [|r l IH]; intros i; simpl; [by split|].
  destruct (contains_point x y r) eqn:E.
  - split; [done|]. intros H. apply Forall_cons in H as [H _]. congruence.
  - rewrite IH, Forall_cons. tauto.
Qed.

Lemma pop_hit_None (m : gmap Z (list Region)) idx x y :
  pop_hit m idx x y = None ↔
  Forall (λ r, contains_point x y r = false) (default [] (m !! idx)).
Proof.
  unfold pop_hit. destruct (m !! idx) as [l|]; simpl; [|by split].
  rewrite <- (first_hit_None x y l 0).
  by destruct (first_hit x y l 0).
Qed.

Lemma pop_hit_Some (m : gmap Z (list Region)) idx x y l i r :
  m !! idx = Some l → l !! i = Some r → contains_point x y r = true →
  (∀ j r', (j < i)%nat → l !! j = Some r' → contains_point x y r' = false) →
  pop_hit m idx x y = Some (<[idx := delete i l]> m).
Proof.
  intros Hl Hr Hc Hfirst. unfold pop_hit. rewrite Hl.
  assert (first_hit x y l 0 = Some i) as ->; [|done].
  apply first_hit_Some. split; [by exists r|done].
Qed.

(** X1.  If an automatic region of the current frame contains the point
    (edges included), [toggle_region] removes the first such region of
    the automatic list and returns [True]; the other automatic regions
    keep their order, and the manual collections are not touched, even
    when a manual region contains the point too. *)
Theorem toggle_region_removes_first_automatic s x y d l i r :
  detected_regions s !! current_frame_idx s = Some l →
  l !! i = Some r → contains_point x y r = true →
  (∀ j r', (j < i)%nat → l !! j = Some r' → contains_point x y r' = false) →
  toggle_region s x y d
  = (true,
     set_detected_regions
       (<[current_frame_idx s := take i l ++ drop (S i) l]> (detected_regions s)) s).
Proof.
  intros Hl Hr Hc Hfirst. unfold toggle_region.
  rewrite (pop_hit_Some _ _ x y l i r) by done.
  by rewrite delete_take_drop.
Qed.

Lemma toggle_region_removes_first_automatic_witness :
  toggle_region Fixture.ledger 20 20 None
  = (true,
     set_detected_regions
       (<[current_frame_idx Fixture.ledger
          := take 0 [(10, 10, 60, 60, 30, 31)] ++ drop 1 [(10, 10, 60, 60, 30, 31)]]>
          (detected_regions Fixture.ledger))
       Fixture.ledger).
Proof.
  refine (toggle_region_removes_first_automatic
            Fixture.ledger 20 20 None [(10, 10, 60, 60, 30, 31)] 0%nat
            (10, 10, 60, 60, 30, 31) _ _ _ _).
  - vm_compute. reflexivity.
  - reflexivity.
  - vm_compute. reflexivity.
  - intros j r' Hj. lia.
Defined.

(** X2.  If no automatic region of the current frame contains the point
    and a manual one does, [toggle_region] removes the first such manual
    region and returns [True]; the automatic collections are not
    touched. *)
Theorem toggle_region_removes_first_manual s x y d l i r :
  Forall (λ r, contains_point x y r = false)
         (default [] (detected_regions s !! current_frame_idx s)) →
  manual_regions s !! current_frame_idx s = Some l →
  l !! i = Some r → contains_point x y r = true →
  (∀ j r', (j < i)%nat → l !! j = Some r' → contains_point x y r' = false) →
  toggle_region s x y d
  = (true,
     set_manual_regions
       (<[current_frame_idx s := take i l ++ drop (S i) l]> (manual_regions s)) s).
Proof.
  intros Hauto Hl Hr Hc Hfirst. unfold toggle_region.
  apply pop_hit_None in Hauto. rewrite Hauto.
  rewrite (pop_hit_Some _ _ x y l i r) by done.
  by rewrite delete_take_drop.
Qed.

Lemma toggle_region_removes_first_manual_witness :
  toggle_region Fixture.ledger 7 7 None
  = (true,
     set_manual_regions
       (<[current_frame_idx Fixture.ledger
          := take 0 [(5, 5, 40, 40, 30, 31)] ++ drop 1 [(5, 5, 40, 40, 30, 31)]]>
          (manual_regions Fixture.ledger))
       Fixture.ledger).
Proof.
  refine (toggle_region_removes_first_manual
            Fixture.ledger 7 7 None [(5, 5, 40, 40, 30, 31)] 0%nat
            (5, 5, 40, 40, 30, 31) _ _ _ _ _).
  - vm_compute. by repeat constructor.
  - vm_compute. reflexivity.
  - reflexivity.
  - vm_compute. reflexivity.
  - intros j r' Hj. lia.
Defined.

(** X3.  [toggle_region] returns [False] exactly when no automatic and
    no manual region of the current frame contains the point, and then
    the ledger is unchanged; when it returns [True], exactly one region
    has left the current frame and every other frame is as it was. *)
Theorem toggle_region_miss_or_one s x y d :
  let res := toggle_region s x y d in
  let idx := current_frame_idx s in
  let here (m : gmap Z (list Region)) := default [] (m !! idx) in
  (res.1 = false ↔
   Forall (λ r, contains_point x y r = false)
          (here (detected_regions s) ++ here (manual_regions s)))
  ∧ (res.1 = false → res.2 = s)
  ∧ (res.1 = true →
     (length (here (detected_regions res.2)) + length (here (manual_regions res.2))
      + 1 = length (here (detected_regions s)) + length (here (manual_regions s)))%nat
     ∧ ∀ k, k ≠ idx →
            detected_regions res.2 !! k = detected_regions s !! k
            ∧ manual_regions res.2 !! k = manual_regions s !! k).
Proof.
  intros res idx here. subst res here idx. unfold toggle_region.
  rewrite Forall_app, <- !pop_hit_None.
  unfold pop_hit.
  destruct (detected_regions s !! current_frame_idx s) as [la|] eqn:Ha; simpl.
  - destruct (first_hit x y la 0) as [i|] eqn:Hi; simpl.
    + apply first_hit_Some in Hi as [(r & Hr & _) _].
      apply lookup_lt_Some in Hr.
      split_and!; [split; [done|by intros [? _]]|done|].
      intros _. rewrite lookup_insert_eq. simpl. rewrite length_delete by eauto using lookup_lt_is_Some_2.
      split; [lia|]. intros k Hk. by rewrite lookup_insert_ne.
    + destruct (manual_regions s !! current_frame_idx s) as [lm|] eqn:Hm; simpl.
      * destruct (first_hit x y lm 0) as [i|] eqn:Hi'; simpl.
        -- apply first_hit_Some in Hi' as [(r & Hr & _) _].
           apply lookup_lt_Some in Hr.
           split_and!; [split; [done|by intros [_ ?]]|done|].
           intros _. rewrite lookup_insert_eq, Ha. simpl.
           rewrite length_delete by eauto using lookup_lt_is_Some_2.
           split; [lia|]. intros k Hk. by rewrite lookup_insert_ne.
        -- by split_and!.
      * by split_and!.
  - destruct (manual_regions s !! current_frame_idx s) as [lm|] eqn:Hm; simpl.
    + destruct (first_hit x y lm 0) as [i|] eqn:Hi'; simpl.
      * apply first_hit_Some in Hi' as [(r & Hr & _) _].
        apply lookup_lt_Some in Hr.
        split_and!; [split; [done|by intros [_ ?]]|done|].
        intros _. rewrite lookup_insert_eq, Ha. simpl.
        rewrite length_delete by eauto using lookup_lt_is_Some_2.
        split; [lia|]. intros k Hk. by rewrite lookup_insert_ne.
      * by split_and!.
    + by split_and!.
Qed.

End ToggleFacts.

Module LedgerCompositionFacts.
Import BlurManager.

Lemma first_hit_app_miss x y l r :
  Forall (λ r, contains_point x y r = false) l →
  contains_point x y r = true →
  first_hit x y (l ++ [r]) 0 = Some (length l).
Proof.
  intros Hl Hr. apply ToggleFacts.first_hit_Some. split.
  - exists r. split; [|done]. by rewrite lookup_app_r, Nat.sub_diag by lia.
  - intros j r' Hj Hr'. rewrite lookup_app_l in Hr' by done.
    rewrite Forall_forall in Hl. apply Hl. by eapply list_elem_of_lookup_2.
Qed.

(** X4.  Drawing a manual region on the current frame and then clicking
    a point of it (edges included) that no older region of the frame
    contains removes exactly that region: the call returns [True], the
    automatic collections and the manual regions of every frame are
    what they were before the region was added.  Only the key of the
    frame stays behind, with an empty list, if the frame had none. *)
Theorem add_then_toggle_restores s x1 y1 x2 y2 sigma ksize x y d :
  x1 <= x <= x2 → y1 <= y <= y2 →
  Forall (λ r, contains_point x y r = false)
         (default [] (detected_regions s !! current_frame_idx s)
          ++ default [] (manual_regions s !! current_frame_idx s)) →
  let s1 := add_manual_region_to_frame s (current_frame_idx s) x1 y1 x2 y2 sigma ksize in
  let res := toggle_region s1 x y d in
  res.1 = true
  ∧ detected_regions res.2 = detected_regions s
  ∧ manual_regions res.2
    = <[current_frame_idx s := default [] (manual_regions s !! current_frame_idx s)]>
        (manual_regions s)
  ∧ ∀ k, default [] (manual_regions res.2 !! k) = default [] (manual_regions s !! k).
Proof.
  intros Hx Hy Hmiss s1 res. apply Forall_app in Hmiss as [Ha Hm].
  assert (Hc : contains_point x y (x1, y1, x2, y2, sigma, ksize) = true).
  { simpl. by rewrite !bool_decide_eq_true_2. }
  assert (Hres : res = (true,
            set_manual_regions
              (<[current_frame_idx s
                 := default [] (manual_regions s !! current_frame_idx s)]>
                 (manual_regions s)) s1)).
  { subst res. unfold toggle_region.
    replace (detected_regions s1) with (detected_regions s) by done.
    replace (current_frame_idx s1) with (current_frame_idx s) by done.
    apply ToggleFacts.pop_hit_None in Ha. rewrite Ha.
    unfold pop_hit. subst s1.
    rewrite LedgerWriteFacts.add_manual_region_to_frame_regions, lookup_insert_eq.
    rewrite first_hit_app_miss by done.
    rewrite insert_insert_eq.
    rewrite delete_take_drop, take_app_length.
    rewrite drop_ge by (rewrite length_app; simpl; lia). by rewrite app_nil_r. }
  rewrite Hres. simpl. split_and!; try done.
  intros k. destruct (decide (k = current_frame_idx s)) as [->|Hk].
  - by rewrite lookup_insert_eq.
  - by rewrite lookup_insert_ne.
Qed.

Lemma add_then_toggle_restores_witness :
  let s1 := add_manual_region_to_frame init (current_frame_idx init) 10 20 60 60 30 31 in
  let res := toggle_region s1 10 60 None in
  res.1 = true
  ∧ detected_regions res.2 = detected_regions init
  ∧ manual_regions res.2
    = <[current_frame_idx init
        := default [] (manual_regions init !! current_frame_idx init)]>
        (manual_regions init)
  ∧ ∀ k, default [] (manual_regions res.2 !! k)
         = default [] (manual_regions init !! k).
Proof.
  refine (add_then_toggle_restores init 10 20 60 60 30 31 10 60 None _ _ _).
  - lia.
  - lia.
  - vm_compute. constructor.
Defined.

Lemma restamp_restamp sigma1 ksize1 sigma2 ksize2 r :
  restamp sigma2 ksize2 (restamp sigma1 ksize1 r) = restamp sigma2 ksize2 r.
Proof. by destruct r as [[[[[x1 y1] x2] y2] s] k]. Qed.

(** X5.  Two defaults updates in a row are the second one alone: the
    last [(sigma, ksize)] wins on the defaults and on every manual
    region, and an update repeated changes nothing more.  An update
    keeps the frames that have a manual list, the number of regions of
    each, and every region's corners. *)
Theorem update_blur_params_last_wins s sigma1 ksize1 sigma2 ksize2 :
  update_blur_params (update_blur_params s sigma1 ksize1) sigma2 ksize2
  = update_blur_params s sigma2 ksize2
  ∧ ∀ i, (fmap coords) <$> (manual_regions (update_blur_params s sigma2 ksize2) !! i)
         = (fmap coords) <$> (manual_regions s !! i).
Proof.
  split.
  - unfold update_blur_params. simpl. f_equal.
    + rewrite !BlurManagerFacts.restamp_list_fmap, <- list_fmap_compose.
      apply list_fmap_ext. intros ? r _. apply restamp_restamp.
    + rewrite <- map_fmap_compose. apply map_fmap_ext. intros i l _. simpl.
      rewrite !BlurManagerFacts.restamp_list_fmap, <- list_fmap_compose.
      apply list_fmap_ext. intros ? r _. apply restamp_restamp.
  - intros i. rewrite BlurManagerFacts.update_blur_params_manual.
    destruct (manual_regions s !! i) as [l|]; simpl; [|done].
    f_equal. rewrite <- list_fmap_compose. apply list_fmap_ext.
    intros ? r _. apply BlurManagerFacts.restamp_coords.
Qed.

Lemma append_missing_prefix src dst : dst `prefix_of` append_missing src dst.
Proof.
  revert dst. induction src as [|a src IH]; intros dst; [done|].
  rewrite BlurManagerFacts.append_missing_cons.
  destruct (decide (a ∈ dst)); [apply IH|].
  etrans; [|apply IH]. by apply prefix_app_r.
Qed.

(** X6.  [copy_regions_to_next_frame] writes to the collections of the
    next frame only: every other frame, the current one included, keeps
    its lists, and the current index and the defaults are unchanged.  On
    the next frame the regions that were there stay, in their order, at
    the front of each list; and after a call that returned [True] every
    region of the current frame is on the next frame. *)
Theorem copy_regions_to_next_frame_keeps_and_covers s :
  let res := copy_regions_to_next_frame s in
  let idx := current_frame_idx s in
  let at_ (i : Z) (m : gmap Z (list Region)) := default [] (m !! i) in
  (∀ k, k ≠ idx + 1 →
        manual_regions res.2 !! k = manual_regions s !! k
        ∧ detected_regions res.2 !! k = detected_regions s !! k)
  ∧ at_ (idx + 1) (manual_regions s) `prefix_of` at_ (idx + 1) (manual_regions res.2)
  ∧ at_ (idx + 1) (detected_regions s) `prefix_of` at_ (idx + 1) (detected_regions res.2)
  ∧ (res.1 = true →
     (∀ r, r ∈ at_ idx (manual_regions s) → r ∈ at_ (idx + 1) (manual_regions res.2))
     ∧ ∀ r, r ∈ at_ idx (detected_regions s) → r ∈ at_ (idx + 1) (detected_regions res.2))
  ∧ current_frame_idx res.2 = idx
  ∧ default_sigma res.2 = default_sigma s
  ∧ default_ksize res.2 = default_ksize s.
Proof.
  intros res idx at_. subst res at_ idx.
  assert (Hne : current_frame_idx s ≠ current_frame_idx s + 1) by lia.
  assert (Hempty : ∀ m : gmap Z (list Region),
             has_regions m (current_frame_idx s) = false →
             ∀ r, r ∉ default [] (m !! current_frame_idx s)).
  { intros m Hm r. apply BlurManagerFacts.has_regions_false in Hm as [-> | ->];
      simpl; apply not_elem_of_nil. }
  unfold copy_regions_to_next_frame.
  destruct (has_regions (manual_regions s) (current_frame_idx s)) eqn:Hm;
    destruct (has_regions (detected_regions s) (current_frame_idx s)) eqn:Hd;
    simpl; (split_and!; try done);
    try (intros k Hk; by rewrite ?BlurManagerFacts.copy_collection_other by done);
    rewrite ?BlurManagerFacts.copy_collection_next by done; simpl;
    try apply append_missing_prefix;
    try (intros _; split; intros r Hr;
         rewrite ?BlurManagerFacts.copy_collection_next by done; simpl;
         try (by apply BlurManagerFacts.append_missing_covers);
         by (exfalso; eapply Hempty; eauto)).
Qed.

Section Flag.
Context {Frame : Type} `{!Cv2 Frame}.

(** X7.  The flag [all_blurred] is written by [toggle_all_blur] and read
    nowhere: toggling it changes neither what [apply_blur] returns, nor
    which region a click removes, nor what a forward copy does; and
    toggling twice gives the ledger back. *)
Theorem all_blurred_is_never_read (s : t) :
  (∀ (frame : Frame) d idx,
     (apply_blur frame d idx (toggle_all_blur s)).2 = (apply_blur frame d idx s).2)
  ∧ (∀ x y d,
       (toggle_region (toggle_all_blur s) x y d).1 = (toggle_region s x y d).1
       ∧ (toggle_region (toggle_all_blur s) x y d).2
         = toggle_all_blur (toggle_region s x y d).2)
  ∧ copy_regions_to_next_frame (toggle_all_blur s)
    = ((copy_regions_to_next_frame s).1,
       toggle_all_blur (copy_regions_to_next_frame s).2)
  ∧ toggle_all_blur (toggle_all_blur s) = s.
Proof.
  split_and!.
  - intros frame d idx. by rewrite !CompositorFacts.apply_blur_value.
  - intros x y d. unfold toggle_region. simpl.
    destruct (pop_hit (detected_regions s) _ x y); [done|].
    by destruct (pop_hit (manual_regions s) _ x y).
  - unfold copy_regions_to_next_frame. simpl.
    destruct (has_regions (manual_regions s) _), (has_regions (detected_regions s) _);
      done.
  - destruct s. unfold toggle_all_blur. simpl. by rewrite negb_involutive.
Qed.

End Flag.

End LedgerCompositionFacts.

(** ** The detector's filter *)

Module DetectorFacts.
Import FaceDetector.

Section Facts.
Context {Frame RawBox Prob : Type}.
Variable cvtColor : Frame -> Frame.
Variable detector_detect : Frame -> outcome (option (list RawBox * list Prob)).
Variable at_least_threshold : Prob -> bool.
Variable astype_int : RawBox -> Box.

Lemma select_zip_filter (boxes : list RawBox) (probs : list Prob) :
  length boxes = length probs →
  let kept := filter (λ bp, at_least_threshold bp.2 = true) (zip boxes probs) in
  select boxes (at_least_threshold <$> probs) = kept.*1
  ∧ select probs (at_least_threshold <$> probs) = kept.*2.
Proof.
  cbv zeta.
  revert probs. induction boxes as [|b boxes IH]; intros [|p probs] Hlen;
    try done.
  destruct (IH probs ltac:(simpl in Hlen; lia)) as [IH1 IH2].
  rewrite fmap_cons.
  change (zip (b :: boxes) (p :: probs)) with ((b, p) :: zip boxes probs).
  change (select (b :: boxes) (at_least_threshold p :: (at_least_threshold <$> probs)))
    with (if at_least_threshold p
          then b :: select boxes (at_least_threshold <$> probs)
          else select boxes (at_least_threshold <$> probs)).
  change (select (p :: probs) (at_least_threshold p :: (at_least_threshold <$> probs)))
    with (if at_least_threshold p
          then p :: select probs (at_least_threshold <$> probs)
          else select probs (at_least_threshold <$> probs)).
  destruct (at_least_threshold p) eqn:Hp.
  - rewrite filter_cons_True by done. rewrite !fmap_cons. simpl. by rewrite IH1, IH2.
  - rewrite filter_cons_False by (simpl; congruence). done.
Qed.

(** X8.  When MTCNN returns at least one box, with as many scores as
    boxes, [detect_faces] returns the boxes whose score passes the
    threshold, converted to integers, in MTCNN's order, together with
    their scores: two lists of one length.  If no score passes, the
    result is an empty list of boxes, not [None]. *)
Theorem detect_faces_keeps_boxes_above_threshold frame boxes probs :
  detector_detect (cvtColor frame) = Ok (Some (boxes, probs)) →
  length boxes = length probs →
  boxes ≠ [] →
  let kept := filter (λ bp, at_least_threshold bp.2 = true) (zip boxes probs) in
  detect_faces cvtColor detector_detect at_least_threshold astype_int frame
  = Ok (Some (astype_int <$> kept.*1), Some kept.*2)
  ∧ length (astype_int <$> kept.*1) = length kept.*2
  ∧ Forall (λ p, at_least_threshold p = true) kept.*2.
Proof.
  intros Hdet Hlen Hne kept. unfold detect_faces. cbv zeta. rewrite Hdet.
  rewrite bool_decide_eq_true_2 by (destruct boxes; simpl; [done|lia]).
  rewrite bool_decide_eq_true_2 by (by rewrite length_fmap).
  destruct (select_zip_filter boxes probs Hlen) as [-> ->].
  split_and!; [done|by rewrite !length_fmap|].
  apply Forall_fmap. subst kept. apply Forall_forall.
  intros bp Hbp. by apply list_elem_of_filter in Hbp as [? _].
Qed.

(** X9.  [detect_faces] returns [(None, None)] exactly when MTCNN found
    no face or returned an array of no boxes; it raises when MTCNN does. *)
Theorem detect_faces_none_iff frame :
  (detect_faces cvtColor detector_detect at_least_threshold astype_int frame
   = Ok (None, None)
   ↔ detector_detect (cvtColor frame) = Ok None
     ∨ ∃ probs, detector_detect (cvtColor frame) = Ok (Some ([], probs)))
  ∧ ∀ e, detector_detect (cvtColor frame) = Raise e →
         detect_faces cvtColor detector_detect at_least_threshold astype_int frame
         = Raise e.
Proof.
  unfold detect_faces. split.
  - destruct (detector_detect (cvtColor frame)) as [[[boxes probs]|]|e].
    + destruct boxes as [|b boxes]; simpl.
      * split; [right; by exists probs|done].
      * case_bool_decide.
        -- split; [done|]. intros [?|[? ?]]; done.
        -- split; [done|]. intros [?|[? ?]]; done.
    + split; [by left|done].
    + split; [done|]. intros [?|[? ?]]; done.
  - by intros e ->.
Qed.

End Facts.

Lemma detect_faces_keeps_boxes_above_threshold_witness :
  detect_faces (λ frame : Z, frame)
    (λ _, Ok (Some ([(1, 2, 30, 40); (5, 6, 70, 80); (9, 9, 50, 50)], [90; 50; 85])))
    (λ p, 85 <=? p) (λ b : Box, b) 0
  = Ok (Some [(1, 2, 30, 40); (9, 9, 50, 50)], Some [90; 85]).
Proof.
  refine (proj1 (detect_faces_keeps_boxes_above_threshold
                   (λ frame : Z, frame)
                   (λ _, Ok (Some ([(1, 2, 30, 40); (5, 6, 70, 80); (9, 9, 50, 50)],
                                   [90; 50; 85])))
                   (λ p, 85 <=? p) (λ b : Box, b) 0 _ _ eq_refl eq_refl _)).
  discriminate.
Defined.

End DetectorFacts.

(** ** Navigation *)

Module NavigationFacts.
Import VideoProcessor VideoProcessorFacts.

Section Facts.
Context {Frame Float : Type} `{!Cv2 Frame} `{!Collaborators Frame Float}.

Abbreviation vp := (VideoProcessor.t (Frame := Frame) (Float := Float)).

Lemma readable_in_range (s : vp) i frame :
  readable s i = Some frame → 0 <= i < frame_count s.
Proof.
  unfold readable. destruct (source s) as [[[] dec]|]; try done.
  by case_bool_decide.
Qed.

Lemma frame_count_same (s s' : vp) : same_setup s s' → frame_count s' = frame_count s.
Proof. unfold same_setup, setup. by intros [= -> _ _ _ _ _ _ _ _ _]. Qed.

(** X10.  [get_frame] returns [None] exactly when the source does not
    supply the frame (no source, index outside [0, frame_count), or a
    failed read); in that case only the source's cursor may have moved:
    the current index and frame, the current detection, both caches and
    the ledger are as before, and the detector was not called. *)
Theorem get_frame_none_changes_nothing i (s : vp) :
  ((get_frame i s).2 = Ok None ↔ readable s i = None)
  ∧ (readable s i = None →
     (get_frame i s).1 = set_cap (cap (get_frame i s).1) s
     ∧ source (get_frame i s).1 = source s).
Proof.
  split.
  - pose proof (get_frame_readable i s) as H.
    destruct ((get_frame i s).2) as [o|e].
    + rewrite H. split; [congruence|by intros ->].
    + destruct H as [frame Hf]. rewrite Hf. by split.
  - intros Hr. pose proof (get_frame_same i s) as Hsame.
    split; [|unfold same_setup, setup in Hsame; by injection Hsame].
    clear Hsame. revert Hr. unfold get_frame, readable, source.
    destruct (cap s) as [c|] eqn:Hc; simpl; [|by destruct s].
    destruct (bool_decide (i < 0)) eqn:H1; simpl.
    { intros _. clear. by destruct s. }
    destruct (bool_decide (i >= frame_count s)) eqn:H2; simpl.
    { intros _. clear. by destruct s. }
    apply bool_decide_eq_false in H1, H2.
    unfold cap_read. simpl. destruct (isOpened c); simpl; [|done].
    rewrite bool_decide_eq_true_2 by lia.
    by destruct (decode c i).
Qed.

(** X11.  Whatever index is asked for, and whether the call returns or
    raises, a processor that is on an index within [0, frame_count)
    stays on one: [get_frame], [next_frame] and [prev_frame] never move
    it outside the video. *)
Theorem navigation_stays_in_range (s : vp) :
  0 <= current_frame_idx s < frame_count s →
  let in_range (s' : vp) := 0 <= current_frame_idx s' < frame_count s' in
  (∀ i, in_range (get_frame i s).1)
  ∧ in_range (next_frame s).1
  ∧ in_range (prev_frame s).1.
Proof.
  intros Hs in_range.
  assert (Hget : ∀ i, in_range (get_frame i s).1).
  { intros i. unfold in_range.
    rewrite (frame_count_same s) by apply get_frame_same.
    rewrite get_frame_idx.
    destruct (readable s i) eqn:Hr; [by eapply readable_in_range|done]. }
  split_and!; [done| |].
  - unfold next_frame. case_bool_decide; [apply Hget|done].
  - unfold prev_frame. case_bool_decide; [apply Hget|done].
Qed.

(** X12.  From a frame the source supplies, with the next frame
    supplied too, [next_frame] moves the processor one index forward
    onto that frame, and [prev_frame] then brings it back to the index
    and the frame it started from. *)
Theorem next_then_prev_returns (s : vp) frame0 frame1 :
  readable s (current_frame_idx s) = Some frame0 →
  readable s (current_frame_idx s + 1) = Some frame1 →
  let s1 := (next_frame s).1 in
  let s2 := (prev_frame s1).1 in
  current_frame_idx s1 = current_frame_idx s + 1
  ∧ current_frame s1 = Some frame1
  ∧ current_frame_idx s2 = current_frame_idx s
  ∧ current_frame s2 = Some frame0
  ∧ BlurManager.current_frame_idx (blur_manager s2) = current_frame_idx s.
Proof.
  intros H0 H1 s1 s2.
  pose proof (readable_in_range s _ _ H0) as R0.
  pose proof (readable_in_range s _ _ H1) as R1.
  assert (Hs1 : s1 = (get_frame (current_frame_idx s + 1) s).1).
  { subst s1. unfold next_frame. by rewrite bool_decide_eq_true_2 by lia. }
  destruct (get_frame_position _ s frame1 H1) as (Hi1 & Hf1 & _).
  rewrite <- Hs1 in Hi1, Hf1.
  assert (Hsame : same_setup s s1) by (rewrite Hs1; apply get_frame_same).
  assert (Hs2 : s2 = (get_frame (current_frame_idx s) s1).1).
  { subst s2. unfold prev_frame. rewrite bool_decide_eq_true_2 by lia.
    by replace (current_frame_idx s1 - 1) with (current_frame_idx s) by lia. }
  rewrite <- (readable_same_setup s s1) in H0 by done.
  destruct (get_frame_position _ s1 frame0 H0) as (Hi2 & Hf2 & Hb2 & _).
  rewrite <- Hs2 in Hi2, Hf2, Hb2. by split_and!.
Qed.

End Facts.

Lemma navigation_stays_in_range_witness :
  let in_range (s' : VideoProcessor.t) := 0 <= current_frame_idx s' < frame_count s' in
  (∀ i, in_range (get_frame i Fixture.opened).1)
  ∧ in_range (next_frame Fixture.opened).1
  ∧ in_range (prev_frame Fixture.opened).1.
Proof.
  refine (navigation_stays_in_range Fixture.opened _).
  vm_compute. by split.
Defined.

Lemma next_then_prev_returns_witness :
  let s1 := (next_frame Fixture.opened).1 in
  let s2 := (prev_frame s1).1 in
  current_frame_idx s1 = current_frame_idx Fixture.opened + 1
  ∧ current_frame s1 = Some (Fixture.Raw 1)
  ∧ current_frame_idx s2 = current_frame_idx Fixture.opened
  ∧ current_frame s2 = Some (Fixture.Raw 0)
  ∧ BlurManager.current_frame_idx (blur_manager s2) = current_frame_idx Fixture.opened.
Proof.
  refine (next_then_prev_returns Fixture.opened (Fixture.Raw 0) (Fixture.Raw 1) _ _).
  - vm_compute. reflexivity.
  - vm_compute. reflexivity.
Defined.

End NavigationFacts.

(** ** Rendering and the render cache *)

Module RenderFacts.
Import VideoProcessor VideoProcessorFacts.

Section Facts.
Context {Frame Float : Type} `{!Cv2 Frame} `{!Collaborators Frame Float}.

Abbreviation vp := (VideoProcessor.t (Frame := Frame) (Float := Float)).

Lemma materialize_detected_fields (s : vp) :
  current_frame_idx (materialize_detected s) = current_frame_idx s
  ∧ current_frame (materialize_detected s) = current_frame s
  ∧ processed_frames (materialize_detected s) = processed_frames s
  ∧ detected_faces (materialize_detected s) = detected_faces s
  ∧ detection_results (materialize_detected s) = detection_results s
  ∧ detector_calls (materialize_detected s) = detector_calls s
  ∧ cap (materialize_detected s) = cap s.
Proof.
  unfold materialize_detected. destruct (detected_faces s) eqn:Hd; [|by split_and!].
  by destruct (BlurManager.detected_regions (blur_manager s) !! current_frame_idx s);
    split_and!.
Qed.

(** A render that is not in the cache: the detections are materialized,
    the frame is composited with the ledger's regions and annotated,
    and the result is cached; if the compositor raises, nothing is. *)
Lemma process_current_frame_fresh (s : vp) frame :
  current_frame s = Some frame →
  processed_frames s !! current_frame_idx s = None →
  let idx := current_frame_idx s in
  let s0 := materialize_detected s in
  let bm := BlurManager.set_current_frame_idx idx (blur_manager s0) in
  process_current_frame s
  = match composite (blur_manager s0) frame idx with
    | Ok p =>
        (set_processed_frames (<[idx := annotate bm idx p]> (processed_frames s))
           (set_blur_manager bm s0),
         Ok (Some (annotate bm idx p)))
    | Raise e => (set_blur_manager bm s0, Raise e)
    end.
Proof.
  intros Hf Hc idx s0 bm. subst idx s0 bm.
  unfold process_current_frame. rewrite Hf, Hc.
  destruct (materialize_detected_fields s) as (Hi & _ & Hp & _).
  rewrite apply_blur_composite, Hi.
  destruct (composite _ frame _); simpl; rewrite ?Hi, ?Hp; done.
Qed.

(** X13.  [process_current_frame] returns [None] exactly when no frame
    is loaded.  A frame it returns is in the render cache under the
    current index, and a second call returns the same frame and changes
    nothing.  If compositing raises, the render cache is as before.  A
    cached render is returned whatever the ledger holds: a change to the
    ledger shows only after the entry is removed. *)
Theorem process_current_frame_memoizes (s : vp) :
  let res := process_current_frame s in
  (res.2 = Ok None ↔ current_frame s = None)
  ∧ (∀ p, res.2 = Ok (Some p) →
          processed_frames res.1 !! current_frame_idx s = Some p
          ∧ process_current_frame res.1 = (res.1, Ok (Some p)))
  ∧ (∀ e, res.2 = Raise e → processed_frames res.1 = processed_frames s)
  ∧ (∀ p bm, is_Some (current_frame s) →
             processed_frames s !! current_frame_idx s = Some p →
             process_current_frame (set_blur_manager bm s)
             = (set_blur_manager bm s, Ok (Some p))).
Proof.
  intros res. subst res.
  destruct (current_frame s) as [frame|] eqn:Hf.
  2:{ unfold process_current_frame. rewrite Hf. simpl.
      split_and!; try done; by intros p bm [? ?]. }
  destruct (processed_frames s !! current_frame_idx s) as [cached|] eqn:Hc.
  - assert (Hp : process_current_frame s = (s, Ok (Some cached)))
      by (unfold process_current_frame; by rewrite Hf, Hc).
    rewrite Hp. simpl. split_and!; try done.
    + intros p [= <-]. done.
    + intros p bm _ [= <-]. unfold process_current_frame. simpl. by rewrite Hf, Hc.
  - rewrite (process_current_frame_fresh s frame Hf Hc).
    destruct (materialize_detected_fields s) as (Hi & Hfr & _).
    destruct (composite _ frame _) as [p|e]; simpl.
    + split_and!.
      * by split.
      * intros p' [= <-]. rewrite lookup_insert_eq. split; [done|].
        unfold process_current_frame. simpl. rewrite Hfr, Hf, Hi.
        by rewrite lookup_insert_eq.
      * done.
      * intros p' bm _ ?. congruence.
    + split_and!.
      * by split.
      * done.
      * intros _ _. by destruct (materialize_detected_fields s) as (_ & _ & ? & _).
      * intros p' bm _ ?. congruence.
Qed.

(** X14.  Detections become automatic regions once per frame index: when
    the ledger has an automatic list for the current index, even an
    empty one, [materialize_detected] changes nothing, so running it
    twice is running it once.  Since a click never removes the key of a
    frame, an automatic region removed by a click stays removed on the
    next render. *)
Theorem detections_materialize_once (s : vp) :
  (is_Some (BlurManager.detected_regions (blur_manager s) !! current_frame_idx s) →
   materialize_detected s = s)
  ∧ materialize_detected (materialize_detected s) = materialize_detected s
  ∧ (BlurManager.current_frame_idx (blur_manager s) = current_frame_idx s →
     is_Some (BlurManager.detected_regions (blur_manager s) !! current_frame_idx s) →
     ∀ x y d,
       let s' := set_blur_manager (BlurManager.toggle_region (blur_manager s) x y d).2 s in
       materialize_detected s' = s').
Proof.
  assert (Hkey : ∀ s0 : vp,
             is_Some (BlurManager.detected_regions (blur_manager s0)
                        !! current_frame_idx s0) →
             materialize_detected s0 = s0).
  { intros s0 [l Hl]. unfold materialize_detected.
    destruct (detected_faces s0); [|done]. by rewrite Hl. }
  split_and!; [apply Hkey| |].
  - destruct (detected_faces s) as [boxes|] eqn:Hd.
    + destruct (BlurManager.detected_regions (blur_manager s) !! current_frame_idx s)
        as [l|] eqn:Hl.
      * rewrite !(Hkey s); [done|by rewrite Hl..].
      * apply Hkey. unfold materialize_detected. rewrite Hd, Hl. simpl.
        rewrite lookup_insert_eq. by eexists.
    + assert (materialize_detected s = s) as Hs
        by (unfold materialize_detected; by rewrite Hd).
      by rewrite !Hs.
  - intros Hsync [l Hl] x y d s'. apply Hkey. subst s'. simpl.
    unfold BlurManager.toggle_region, BlurManager.pop_hit.
    rewrite Hsync, Hl.
    destruct (BlurManager.first_hit x y l 0); simpl.
    + rewrite lookup_insert_eq. by eexists.
    + destruct (BlurManager.manual_regions (blur_manager s) !! current_frame_idx s)
        as [lm|]; simpl; [|by rewrite Hl; eexists].
      destruct (BlurManager.first_hit x y lm 0); simpl; rewrite Hl; by eexists.
Qed.

End Facts.

End RenderFacts.

(** ** The export, frame by frame *)

Module ExportFacts.
Import VideoProcessor VideoProcessorFacts.

Section Facts.
Context {Frame Float : Type} `{!Cv2 Frame} `{!Collaborators Frame Float}.

Abbreviation vp := (VideoProcessor.t (Frame := Frame) (Float := Float)).

Ltac get_frame_cases :=
  unfold get_frame, detect_and_store, cap_read;
  repeat (case_match; simpl in *; simplify_eq); simpl; try done.

Lemma get_frame_processed_frames i (s : vp) :
  processed_frames (get_frame i s).1 = processed_frames s.
Proof. get_frame_cases. Qed.

Lemma get_frame_detection_disabled i (s : vp) :
  detect_faces s = false →
  detector_calls (get_frame i s).1 = detector_calls s
  ∧ detection_results (get_frame i s).1 = detection_results s.
Proof. intros Hd. get_frame_cases. Qed.

Lemma get_frame_keeps_entries i j (s : vp) :
  is_Some (detection_results s !! j) →
  is_Some (detection_results (get_frame i s).1 !! j).
Proof.
  intros Hj. get_frame_cases.
  destruct (decide (i = j)) as [->|Hne].
  - rewrite lookup_insert_eq. by eexists.
  - by rewrite lookup_insert_ne.
Qed.

(** A successful [get_frame i] with detection enabled leaves an entry
    for [i] in the detection cache. *)
Lemma get_frame_caches_detection i (s : vp) frame :
  detect_faces s = true →
  (get_frame i s).2 = Ok (Some frame) →
  is_Some (detection_results (get_frame i s).1 !! i).
Proof.
  intros Hd. get_frame_cases; intros _.
  rewrite lookup_insert_eq. by eexists.
Qed.

(** What holds of the processor before an export and is kept by every
    [get_frame] and by the compositor's note of the index holds after
    every iteration of the loop, and after [save_video]. *)
Lemma export_loop_invariant (P : vp → Prop) cb l (s : vp) out :
  (∀ i s0, P s0 → P (get_frame i s0).1) →
  (∀ s0, P s0 →
         P (set_blur_manager
              (BlurManager.set_current_frame_idx (current_frame_idx s0) (blur_manager s0))
              s0)) →
  P s → P (for_each l (export_frame cb) (s, out)).1.1.
Proof.
  intros Hget Hstamp. revert s out. induction l as [|i l IH]; intros s out Hs; [done|].
  simpl. unfold bind. rewrite export_frame_unfold.
  pose proof (Hget i s Hs) as H1.
  pose proof (get_frame_readable i s) as Hr.
  pose proof (get_frame_idx i s) as Hi.
  destruct (get_frame i s) as [s1 [[frame|]|e]]; simpl in *; [|by apply IH|done].
  rewrite <- Hr in Hi. rewrite <- Hi.
  destruct (composite (blur_manager s1) frame (current_frame_idx s1)); simpl;
    [|by apply Hstamp].
  destruct (match cb with Some callback => _ | None => _ end) as [[]|e]; simpl;
    [apply IH|]; by apply Hstamp.
Qed.

Lemma save_video_invariant (P : vp → Prop) path cb (s : vp) :
  (∀ i s0, P s0 → P (get_frame i s0).1) →
  (∀ s0, P s0 →
         P (set_blur_manager
              (BlurManager.set_current_frame_idx (current_frame_idx s0) (blur_manager s0))
              s0)) →
  P s → P (save_video path cb s).1.1.
Proof.
  intros Hget Hstamp Hs. unfold save_video.
  destruct (cap s); [|done].
  destruct (fps s), (width s), (height s); try done.
  unfold try_finally.
  match goal with
  | |- context [for_each ?l ?b (s, ?o)] =>
      pose proof (export_loop_invariant P cb l s o Hget Hstamp Hs) as H1;
      destruct (for_each l b (s, o)) as [[s1 o1] r1]
  end.
  rewrite export_finally_unfold. simpl in H1.
  pose proof (Hget (current_frame_idx s) s1 H1) as H2.
  destruct (get_frame (current_frame_idx s) s1) as [s2 [o|e]]; simpl in *;
    [by destruct r1|done].
Qed.

Lemma composite_no_regions (bm : BlurManager.t) (frame : Frame) i :
  default [] (BlurManager.detected_regions bm !! i) = [] →
  default [] (BlurManager.manual_regions bm !! i) = [] →
  composite bm frame i = Ok frame.
Proof. unfold composite. by intros -> ->. Qed.

Lemma written_for_same_setup (s s' : vp) i p :
  same_setup s s' → written_for s' i p → written_for s i p.
Proof.
  intros Hs (frame & Hr & Hc & Hid). exists frame.
  rewrite <- (readable_same_setup s s'), <- (composite_same_setup s s') by done.
  split_and!; try done.
  unfold same_setup, setup in Hs. injection Hs as _ _ _ _ _ Hm Hd _ _ _.
  by rewrite <- Hm, <- Hd.
Qed.

Lemma export_loop_ok cb l (s : vp) out :
  (for_each l (export_frame cb) (s, out)).2 = Ok tt →
  ∃ new, written (for_each l (export_frame cb) (s, out)).1.2 = written out ++ new
         ∧ Forall2 (written_for s) (filter (λ i, is_Some (readable s i)) l) new.
Proof.
  revert s out. induction l as [|i l IH]; intros s out; simpl.
  { intros _. exists []. by rewrite app_nil_r. }
  unfold bind. rewrite export_frame_unfold.
  pose proof (get_frame_same i s) as Hsame.
  pose proof (get_frame_readable i s) as Hread.
  destruct (get_frame i s) as [s1 [[frame|]|e]]; simpl in *; [| |done].
  - rewrite filter_cons_True by (rewrite <- Hread; by eexists).
    assert (Hs2 : same_setup s
              (set_blur_manager
                 (BlurManager.set_current_frame_idx i (blur_manager s1)) s1))
      by (eapply same_setup_trans; [done|apply set_blur_manager_idx_same]).
    destruct (composite (blur_manager s1) frame i) as [processed|e] eqn:Hc; simpl;
      [|done].
    destruct (match cb with Some callback => _ | None => _ end) as [[]|e]; simpl;
      [|done].
    intros Hok. destruct (IH _ _ Hok) as (new & Hw & Hall).
    exists (processed :: new). simpl in Hw. rewrite <- app_assoc in Hw.
    split; [done|]. constructor.
    + apply (written_for_same_setup s s1); [done|].
      exists frame. rewrite (readable_same_setup s s1) by done.
      split_and!; [done|done|].
      intros Hd Hm. rewrite composite_no_regions in Hc by done. congruence.
    + rewrite (list_filter_iff _ (λ j, is_Some (readable s j))) in Hall
        by (intros j; by rewrite (readable_same_setup s _ j Hs2)).
      eapply Forall2_impl; [exact Hall|].
      intros j p. by apply written_for_same_setup.
  - rewrite filter_cons_False by (rewrite <- Hread; by intros [? ?]).
    intros Hok. destruct (IH _ _ Hok) as (new & Hw & Hall).
    exists new. split; [done|].
    rewrite (list_filter_iff _ (λ j, is_Some (readable s j))) in Hall
      by (intros j; by rewrite (readable_same_setup s _ j Hsame)).
    eapply Forall2_impl; [exact Hall|].
    intros j p. by apply written_for_same_setup.
Qed.

(** X15.  An export that returns [True] has passed to the sink exactly
    one frame per index of [0, frame_count) that the source supplies,
    in increasing order of index, unreadable indices being skipped: the
    frame of that index composited with the regions the ledger holds for
    it, and the frame itself where the ledger holds none.  The sink has
    then been released. *)
Theorem save_video_writes_every_readable_frame path cb (s : vp) :
  (save_video path cb s).2 = Ok true →
  ∃ out, (save_video path cb s).1.2 = Some out
         ∧ released out = true
         ∧ Forall2 (written_for s)
             (filter (λ i, is_Some (readable s i)) (seqZ 0 (frame_count s)))
             (written out).
Proof.
  unfold save_video. destruct (cap s); [|done].
  destruct (fps s), (width s), (height s); try done.
  unfold try_finally.
  match goal with
  | |- context [for_each ?l ?b (s, ?o)] =>
      pose proof (export_loop_ok cb l s o) as Hloop;
      pose proof (export_loop_spec cb l s o) as (_ & Hrel & _);
      destruct (for_each l b (s, o)) as [[s1 o1] r1]
  end.
  rewrite export_finally_unfold. simpl in *.
  destruct (get_frame (current_frame_idx s) s1) as [s2 [o|e]]; simpl; [|done].
  destruct r1 as [[]|e]; simpl; [|done]. intros _.
  destruct (Hloop eq_refl) as (new & Hw & Hall). simpl in Hw.
  exists (writer_release o1). split_and!; [done|done|]. simpl. by rewrite Hw.
Qed.

Lemma save_video_same_setup path cb (s : vp) :
  same_setup s (save_video path cb s).1.1.
Proof.
  apply (save_video_invariant (same_setup s)); [| |apply same_setup_refl].
  - intros i s0 H0. eapply same_setup_trans; [done|apply get_frame_same].
  - intros s0 H0. eapply same_setup_trans; [done|apply set_blur_manager_idx_same].
Qed.

(** X16.  An export, however it ends, leaves the ledger's region
    collections and defaults and the render cache as they were: it
    creates no automatic region from the detections it looks up.  With
    detection disabled it does not call the detector and leaves the
    detection cache alone. *)
Theorem save_video_leaves_ledger_and_caches path cb (s : vp) :
  let s' := (save_video path cb s).1.1 in
  BlurManager.manual_regions (blur_manager s')
  = BlurManager.manual_regions (blur_manager s)
  ∧ BlurManager.detected_regions (blur_manager s')
    = BlurManager.detected_regions (blur_manager s)
  ∧ BlurManager.default_sigma (blur_manager s') = BlurManager.default_sigma (blur_manager s)
  ∧ BlurManager.default_ksize (blur_manager s') = BlurManager.default_ksize (blur_manager s)
  ∧ processed_frames s' = processed_frames s
  ∧ (detect_faces s = false →
     detector_calls s' = detector_calls s
     ∧ detection_results s' = detection_results s).
Proof.
  intros s'. subst s'.
  pose proof (save_video_same_setup path cb s) as Hsame.
  assert (Hcache : processed_frames (save_video path cb s).1.1 = processed_frames s).
  { apply (save_video_invariant (λ s0, processed_frames s0 = processed_frames s));
      [| |done].
    - intros i s0 H0. by rewrite get_frame_processed_frames.
    - by intros s0 H0. }
  unfold same_setup, setup in Hsame. injection Hsame as _ _ _ _ _ Hm Hd Hs Hk _.
  split_and!; try done.
  intros Hoff.
  pose proof (save_video_invariant
                (λ s0, detect_faces s0 = false
                       ∧ detector_calls s0 = detector_calls s
                       ∧ detection_results s0 = detection_results s)
                path cb s) as Hinv.
  destruct Hinv as (_ & ? & ?); [| |done|done].
  - intros i s0 (Ho & Hc & Hr).
    destruct (get_frame_detection_disabled i s0 Ho) as [-> ->].
    split_and!; [|done|done].
    pose proof (get_frame_same i s0) as H0. unfold same_setup, setup in H0.
    injection H0 as _ _ _ _ Hdf _ _ _ _ _. congruence.
  - by intros s0 H0.
Qed.

Lemma export_loop_caches_detections cb l (s : vp) out :
  detect_faces s = true →
  (for_each l (export_frame cb) (s, out)).2 = Ok tt →
  ∀ i, i ∈ l → is_Some (readable s i) →
       is_Some (detection_results (for_each l (export_frame cb) (s, out)).1.1 !! i).
Proof.
  revert s out. induction l as [|i0 l IH]; intros s out Hon Hok i Hi Hr;
    [by apply elem_of_nil in Hi|].
  revert Hok. simpl. unfold bind. rewrite export_frame_unfold.
  pose proof (get_frame_same i0 s) as Hsame.
  pose proof (get_frame_readable i0 s) as Hread.
  pose proof (get_frame_caches_detection i0 s) as Hcache.
  destruct (get_frame i0 s) as [s1 [[frame|]|e]]; simpl in *; [| |done].
  - assert (Hs2 : same_setup s
              (set_blur_manager
                 (BlurManager.set_current_frame_idx i0 (blur_manager s1)) s1))
      by (eapply same_setup_trans; [done|apply set_blur_manager_idx_same]).
    destruct (composite (blur_manager s1) frame i0) as [processed|e]; simpl; [|done].
    destruct (match cb with Some callback => _ | None => _ end) as [[]|e]; simpl;
      [|done].
    intros Hok.
    assert (Hon2 : detect_faces
              (set_blur_manager
                 (BlurManager.set_current_frame_idx i0 (blur_manager s1)) s1) = true).
    { unfold same_setup, setup in Hs2. injection Hs2 as _ _ _ _ Hdf _ _ _ _ _.
      simpl in *. congruence. }
    destruct (decide (i = i0)) as [->|Hne].
    + apply (export_loop_invariant
               (λ s0, is_Some (detection_results s0 !! i0))); [| |by eapply Hcache].
      * intros j s0. apply get_frame_keeps_entries.
      * by intros s0.
    + apply elem_of_cons in Hi as [?|Hi]; [done|].
      apply IH; try done. by rewrite (readable_same_setup s _ i Hs2).
  - intros Hok. apply elem_of_cons in Hi as [->|Hi].
    + rewrite <- Hread in Hr. by destruct Hr.
    + apply IH; try done.
      * unfold same_setup, setup in Hsame. injection Hsame as _ _ _ _ Hdf _ _ _ _ _.
        congruence.
      * by rewrite (readable_same_setup s _ i Hsame).
Qed.

(** X17.  With detection enabled, an export that returns [True] has
    looked up or computed a detection for every frame it read: every
    index the source supplies has an entry in the detection cache
    afterwards, while the automatic regions of the ledger are the ones
    it had before. *)
Theorem save_video_fills_detection_cache path cb (s : vp) :
  (save_video path cb s).2 = Ok true →
  detect_faces s = true →
  (∀ i frame, readable s i = Some frame →
              is_Some (detection_results (save_video path cb s).1.1 !! i))
  ∧ BlurManager.detected_regions (blur_manager (save_video path cb s).1.1)
    = BlurManager.detected_regions (blur_manager s).
Proof.
  intros Hok Hon.
  split.
  2: { pose proof (save_video_same_setup path cb s) as Hsame.
       unfold same_setup, setup in Hsame. by injection Hsame as _ _ _ _ _ _ Hd _ _ _. }
  intros i frame Hr. revert Hok. unfold save_video.
  destruct (cap s); [|done].
  destruct (fps s), (width s), (height s); try done.
  unfold try_finally.
  match goal with
  | |- context [for_each ?l ?b (s, ?o)] =>
      pose proof (export_loop_caches_detections cb l s o Hon) as Hloop;
      destruct (for_each l b (s, o)) as [[s1 o1] r1]
  end.
  rewrite export_finally_unfold. simpl in *.
  pose proof (get_frame_keeps_entries (current_frame_idx s) i s1) as Hkeep.
  destruct (get_frame (current_frame_idx s) s1) as [s2 [o|e]]; simpl in *; [|done].
  destruct r1 as [[]|e]; simpl; [|done]. intros _.
  apply Hkeep, Hloop; [done| |by eexists].
  apply elem_of_seqZ.
  pose proof (NavigationFacts.readable_in_range s i frame Hr). lia.
Qed.

Lemma export_loop_unreadable cb l (s : vp) out :
  (∀ i, readable s i = None) →
  (for_each l (export_frame cb) (s, out)).2 = Ok tt
  ∧ (for_each l (export_frame cb) (s, out)).1.2 = out.
Proof.
  revert s. induction l as [|i l IH]; intros s Hnone; [done|].
  simpl. unfold bind. rewrite export_frame_unfold.
  pose proof (get_frame_same i s) as Hsame.
  pose proof (get_frame_readable i s) as Hread. rewrite Hnone in Hread.
  destruct (get_frame i s) as [s1 [[frame|]|e]]; simpl in *;
    [done| |by destruct Hread].
  apply IH. intros j. by rewrite (readable_same_setup s s1).
Qed.

(** X18.  [open_video] on a source that does not open returns [False]
    and changes one thing, the source handle, which is now the unopened
    one: position, caches and ledger are as before.  From then on no
    frame can be fetched; and an export, which needs the attributes of
    an earlier successful open to construct its sink, passes no frame to
    the sink and still returns [True]. *)
Theorem open_video_failure_replaces_source path (s : vp) :
  isOpened (cv2_VideoCapture path) = false →
  let s' := (open_video path s).1 in
  (open_video path s).2 = Ok false
  ∧ s' = set_cap (Some (cv2_VideoCapture path)) s
  ∧ (∀ i, (get_frame i s').2 = Ok None)
  ∧ ∀ out_path cb out,
      (save_video out_path cb s').1.2 = Some out →
      (save_video out_path cb s').2 = Ok true ∧ written out = [].
Proof.
  intros Hclosed s'.
  assert (Hs' : open_video path s = (set_cap (Some (cv2_VideoCapture path)) s, Ok false))
    by (unfold open_video; by rewrite Hclosed).
  subst s'. rewrite Hs'. simpl.
  assert (Hnone : ∀ i, readable (set_cap (Some (cv2_VideoCapture path)) s) i = None)
    by (intros i; unfold readable, source; simpl; by rewrite Hclosed).
  split_and!; try done.
  - intros i.
    pose proof (get_frame_readable i (set_cap (Some (cv2_VideoCapture path)) s)) as H.
    rewrite Hnone in H.
    destruct ((get_frame i (set_cap (Some (cv2_VideoCapture path)) s)).2);
      [by rewrite H|by destruct H].
  - intros out_path cb out. unfold save_video. simpl.
    destruct (fps s), (width s), (height s); try done.
    unfold try_finally.
    match goal with
    | |- context [for_each ?l ?b (?s0, ?o)] =>
        pose proof (export_loop_unreadable cb l s0 o Hnone) as [Hok Hout];
        pose proof (export_loop_spec cb l s0 o) as (Hsame & _);
        destruct (for_each l b (s0, o)) as [[s1 o1] r1]
    end.
    rewrite export_finally_unfold. simpl in *. subst.
    pose proof (get_frame_readable (current_frame_idx s) s1) as Hread.
    rewrite (readable_same_setup _ s1) in Hread by done. rewrite Hnone in Hread.
    destruct (get_frame (current_frame_idx s) s1) as [s2 [o|e]]; simpl in *;
      [|by destruct Hread].
    by intros [= <-].
Qed.

End Facts.

(** An export of ["clip.mp4"] with the ledger of [Fixture.ledger]: two
    frames reach the sink, the first one blurred twice. *)
Lemma save_video_writes_every_readable_frame_witness :
  let s := (open_video "clip.mp4" Fixture.with_ledger).1 in
  ∃ out, (save_video "out.mp4" None s).1.2 = Some out
         ∧ released out = true
         ∧ Forall2 (written_for s)
             (filter (λ i, is_Some (readable s i)) (seqZ 0 (frame_count s)))
             (written out).
Proof.
  refine (save_video_writes_every_readable_frame
            "out.mp4" None (open_video "clip.mp4" Fixture.with_ledger).1 _).
  vm_compute. reflexivity.
Defined.

Lemma save_video_fills_detection_cache_witness :
  (∀ i frame, readable Fixture.opened i = Some frame →
              is_Some (detection_results (save_video "out.mp4" None Fixture.opened).1.1
                         !! i))
  ∧ BlurManager.detected_regions
      (blur_manager (save_video "out.mp4" None Fixture.opened).1.1)
    = BlurManager.detected_regions (blur_manager Fixture.opened).
Proof.
  refine (save_video_fills_detection_cache "out.mp4" None Fixture.opened _ _).
  - vm_compute. reflexivity.
  - reflexivity.
Defined.

(** A second [open_video], on a path that does not open, after
    ["clip.mp4"] was opened. *)
Lemma open_video_failure_replaces_source_witness :
  let s' := (open_video "missing.mp4" Fixture.opened).1 in
  (open_video "missing.mp4" Fixture.opened).2 = Ok false
  ∧ s' = set_cap (Some (cv2_VideoCapture "missing.mp4")) Fixture.opened
  ∧ (∀ i, (get_frame i s').2 = Ok None)
  ∧ ∀ out_path cb out,
      (save_video out_path cb s').1.2 = Some out →
      (save_video out_path cb s').2 = Ok true ∧ written out = [].
Proof.
  refine (open_video_failure_replaces_source "missing.mp4" Fixture.opened _).
  reflexivity.
Defined.

End ExportFacts.

(** ** Where an export leaves the processor *)

Module RestoreFacts.
Import VideoProcessor VideoProcessorFacts.

Section Facts.
Context {Frame Float : Type} `{!Cv2 Frame} `{!Collaborators Frame Float}.

Abbreviation vp := (VideoProcessor.t (Frame := Frame) (Float := Float)).

(** The loop leaves the processor on a frame the source supplies as
    soon as it has come across one, whether it ends or raises: every
    exception of the loop is raised after [get_frame] has moved the
    processor. *)
Lemma export_loop_position cb l (s s0 : vp) out :
  same_setup s s0 →
  is_Some (readable s (current_frame_idx s0))
  ∨ (∃ j, j ∈ l ∧ is_Some (readable s j)) →
  is_Some (readable s (current_frame_idx (for_each l (export_frame cb) (s0, out)).1.1)).
Proof.
  revert s0 out. induction l as [|i l IH]; intros s0 out Hsame Hcase.
  { destruct Hcase as [?|(j & Hj & _)]; [done|by apply elem_of_nil in Hj]. }
  simpl. unfold bind. rewrite export_frame_unfold.
  pose proof (get_frame_same i s0) as Hsame1.
  pose proof (get_frame_readable i s0) as Hread.
  pose proof (get_frame_idx i s0) as Hidx.
  rewrite (readable_same_setup s s0) in Hread, Hidx by done.
  assert (Hs1 : same_setup s (get_frame i s0).1) by (by eapply same_setup_trans).
  destruct (get_frame i s0) as [s1 [[frame|]|e]]; simpl in *.
  - rewrite <- Hread in Hidx.
    assert (Hon : is_Some (readable s (current_frame_idx s1)))
      by (rewrite Hidx, <- Hread; by eexists).
    destruct (composite (blur_manager s1) frame i); simpl; [|done].
    destruct (match cb with Some callback => _ | None => _ end) as [[]|e]; simpl;
      [|done].
    apply IH; [|by left].
    eapply same_setup_trans; [done|apply set_blur_manager_idx_same].
  - rewrite <- Hread in Hidx. apply IH; [done|].
    destruct Hcase as [?|(j & Hj & Hrj)]; [left; by rewrite Hidx|].
    apply elem_of_cons in Hj as [->|Hj].
    + rewrite <- Hread in Hrj. by destruct Hrj.
    + right. by exists j.
  - destruct Hread as [frame Hread]. by rewrite Hread in Hidx; rewrite Hidx, Hread.
Qed.

(** An export started on an index whose frame the source does not
    supply ends on the index it started from only if the source
    supplies no frame at all. *)
Lemma save_video_position path cb (s : vp) out :
  (save_video path cb s).1.2 = Some out →
  readable s (current_frame_idx s) = None →
  current_frame_idx (save_video path cb s).1.1 = current_frame_idx s
  ↔ ∀ j, readable s j = None.
Proof.
  intros Hout Hcur. split.
  - intros Hback j. destruct (readable s j) as [frame|] eqn:Hj; [exfalso|done].
    revert Hout Hback. unfold save_video.
    destruct (cap s); [|done].
    destruct (fps s), (width s), (height s); try done.
    unfold try_finally.
    match goal with
    | |- context [for_each ?l ?b (s, ?o)] =>
        pose proof (export_loop_position cb l s s o (same_setup_refl s)) as Hloop;
        pose proof (export_loop_spec cb l s o) as (Hsame & _);
        destruct (for_each l b (s, o)) as [[s1 o1] r1]
    end.
    rewrite export_finally_unfold. simpl in Hloop, Hsame.
    pose proof (get_frame_idx (current_frame_idx s) s1) as Hidx.
    rewrite (readable_same_setup s s1), Hcur in Hidx by done.
    destruct Hloop as [frame1 Hon].
    { right. exists j. split; [|by eexists]. apply elem_of_seqZ.
      pose proof (NavigationFacts.readable_in_range s j frame Hj). lia. }
    assert (Hne : current_frame_idx s1 ≠ current_frame_idx s)
      by (intros Heq; rewrite Heq in Hon; congruence).
    destruct (get_frame (current_frame_idx s) s1) as [s2 [o|e]]; simpl in *;
      [destruct r1|]; simpl; intros _ Hback; congruence.
  - intros Hnone.
    pose proof (ExportFacts.save_video_invariant
                  (λ s0, same_setup s s0 ∧ current_frame_idx s0 = current_frame_idx s)
                  path cb s) as Hinv.
    apply Hinv; [| |by split; [apply same_setup_refl|]].
    + intros i s0 [Hsame Hi]. split.
      * eapply same_setup_trans; [done|apply get_frame_same].
      * by rewrite get_frame_idx, (readable_same_setup s s0), Hnone.
    + intros s0 [Hsame Hi]. split; [|done].
      eapply same_setup_trans; [done|apply set_blur_manager_idx_same].
Qed.

End Facts.

(** C7.  The first half of the claim holds on every exit path: as soon
    as [save_video] has constructed its sink (a source is loaded and its
    attributes are set), the sink has been released when the call
    leaves, by returning or by an exception of the detector, the
    compositor or the progress callback.  The second half does not.
    The [finally] block restores the position with
    [get_frame(current_pos)], and [get_frame] moves the processor only
    after a successful read: the processor is back on the index it
    started from exactly when the source supplies the frame of that
    index, or supplies no frame at all.  On ["damaged.mp4"], which
    [open_video] opens with [True] although its first frame cannot be
    read, an export started on index 0 leaves the processor on index 1,
    when it returns [True] and when the callback raises. *)
Theorem save_video_restore_misses_unreadable_frame :
  (∀ Frame Float (cv : Cv2 Frame) (co : Collaborators Frame Float)
     path cb (s : VideoProcessor.t (Frame := Frame) (Float := Float)),
     let res := save_video path cb s in
     (is_Some res.1.2
      ↔ is_Some (cap s) ∧ is_Some (fps s) ∧ is_Some (width s) ∧ is_Some (height s))
     ∧ (res.1.2 = None → res.1.1 = s)
     ∧ ∀ out,
         res.1.2 = Some out →
         released out = true
         ∧ (current_frame_idx res.1.1 = current_frame_idx s
            ↔ is_Some (readable s (current_frame_idx s)) ∨ ∀ j, readable s j = None)
         ∧ ∀ frame,
             readable s (current_frame_idx s) = Some frame →
             current_frame res.1.1 = Some frame
             ∧ BlurManager.current_frame_idx (blur_manager res.1.1) = current_frame_idx s
             ∧ CAP_PROP_POS_FRAMES <$> cap res.1.1 = Some (current_frame_idx s + 1))
  ∧ (let s := Fixture.opened_damaged in
     let res := save_video "out.mp4" None s in
     let res' := save_video "out.mp4" (Some Fixture.failing_callback) s in
     (open_video "damaged.mp4" (init BlurManager.init)).2 = Ok true
     ∧ current_frame_idx s = 0
     ∧ res.2 = Ok true
     ∧ (released <$> res.1.2) = Some true
     ∧ (written <$> res.1.2) = Some [Fixture.Raw 1]
     ∧ current_frame_idx res.1.1 = 1
     ∧ res'.2 = Raise (ExternalError "progress_callback" 0)
     ∧ (released <$> res'.1.2) = Some true
     ∧ current_frame_idx res'.1.1 = 1).
Proof.
  split.
  - intros Frame Float cv co path cb s res. subst res. split_and!.
    + split.
      * intros [out Hout].
        destruct (save_video_sink path cb s out Hout)
          as (_ & _ & (f & w & h & -> & -> & -> & _) & _).
        revert Hout. unfold save_video. destruct (cap s); [|done].
        intros _. by split_and!.
      * intros ([c Hc] & [f Hf] & [w Hw] & [h Hh]).
        unfold save_video. rewrite Hc, Hf, Hw, Hh.
        by destruct (try_finally _ _ _) as [[s1 o1] [u|e]].
    + intros Hnone. by destruct (save_video_no_sink path cb s Hnone) as [-> _].
    + intros out Hout.
      destruct (save_video_sink path cb s out Hout)
        as (_ & Hrel & _ & _ & _ & _ & Hpos).
      split_and!; [done| |].
      * destruct (readable s (current_frame_idx s)) as [frame|] eqn:Hcur.
        -- destruct (Hpos frame eq_refl) as (Hi & _). split; [|done].
           intros _. left. by eexists.
        -- rewrite (RestoreFacts.save_video_position path cb s out Hout Hcur).
           split; [by right|]. by intros [[? ?]|?].
      * intros frame Hr. by destruct (Hpos frame Hr) as (_ & ? & ? & ?).
  - vm_compute. done.
Qed.

End RestoreFacts.

(** ** What no method writes *)

Module LedgerInvariantFacts.
Import BlurManager.

Section Facts.
Context {Frame : Type} `{!Cv2 Frame}.

(** X24.  No method adds to the legacy list [blur_regions] or to
    [blurred_face_indices]: on every ledger a program reaches both are
    empty, so [is_face_blurred] answers [False] for every index, and the
    loop of [update_blur_params] over [blur_regions] has nothing to
    rewrite. *)
Theorem legacy_collections_stay_empty (s : t) :
  reached (Frame := Frame) s →
  blur_regions s = []
  ∧ (∀ face_idx, is_face_blurred s face_idx = false)
  ∧ ∀ sigma ksize, blur_regions (update_blur_params s sigma ksize) = [].
Proof.
  intros Hs.
  assert (H : blur_regions s = [] ∧ blurred_face_indices s = ∅).
  { induction Hs as [|s _ _|s _ IH|s x y d _ IH|s i x1 y1 x2 y2 sg k _ IH
                     |s sg k _ IH|s _ IH|s frame d idx _ IH|s i _ IH|s m _ IH];
      try done.
    - unfold toggle_region. by repeat case_match.
    - destruct IH as [Hb Hf]. simpl. by rewrite Hb.
    - unfold copy_regions_to_next_frame. by repeat case_match.
    - rewrite CompositorFacts.apply_blur_value. by destruct idx. }
  destruct H as [Hb Hf]. split_and!; [done| |].
  - intros face_idx. unfold is_face_blurred. rewrite Hf.
    by apply bool_decide_eq_false_2, not_elem_of_empty.
  - intros sigma ksize. simpl. by rewrite Hb.
Qed.

End Facts.

(** The ledger of [Fixture.ledger] after a click on its manual
    region. *)
Lemma legacy_collections_stay_empty_witness :
  let s := (toggle_region
              (set_detected_regions {[0 := [(10, 10, 60, 60, 30, 31)]]}
                 (add_manual_region_to_frame init 0 5 5 40 40 30 31))
              7 7 None).2 in
  blur_regions s = []
  ∧ (∀ face_idx, is_face_blurred s face_idx = false)
  ∧ ∀ sigma ksize, blur_regions (update_blur_params s sigma ksize) = [].
Proof.
  refine (legacy_collections_stay_empty (Frame := Fixture.Img) _ _).
  apply reached_toggle_region, reached_assign_detected_regions,
    reached_add_manual_region_to_frame, reached_init.
Defined.

End LedgerInvariantFacts.

(** ** The editing handlers *)

Module HandlerFacts.
Import VideoProcessor VideoProcessorFacts.

Section Facts.
Context {Frame Float : Type} `{!Cv2 Frame} `{!Collaborators Frame Float}.

Abbreviation vp := (VideoProcessor.t (Frame := Frame) (Float := Float)).
Abbreviation ui_t := (FaceBlurUI.t (Frame := Frame) (Float := Float)).

(** [show_frame] on a frame whose render is not cached: when it returns,
    the cache holds, under the current index, the render of the frame
    with the ledger as it then is. *)
Lemma show_frame_renders (ui : ui_t) frame :
  current_frame (FaceBlurUI.video_processor ui) = Some frame →
  processed_frames (FaceBlurUI.video_processor ui)
    !! current_frame_idx (FaceBlurUI.video_processor ui) = None →
  (FaceBlurUI.show_frame ui).2 = Ok tt →
  let s := FaceBlurUI.video_processor ui in
  let s' := FaceBlurUI.video_processor (FaceBlurUI.show_frame ui).1 in
  current_frame_idx s' = current_frame_idx s
  ∧ current_frame s' = Some frame
  ∧ ∃ p, processed_frames s' = <[current_frame_idx s := p]> (processed_frames s)
         ∧ rendered s' (current_frame_idx s) frame p.
Proof.
  intros Hf Hc. unfold FaceBlurUI.show_frame. rewrite Hf.
  rewrite (RenderFacts.process_current_frame_fresh _ frame Hf Hc).
  destruct (RenderFacts.materialize_detected_fields (FaceBlurUI.video_processor ui))
    as (Hi & Hfr & _).
  destruct (composite _ frame _) as [q|e] eqn:Hq; simpl; [|done].
  intros _. split_and!; [done|by rewrite Hfr|].
  eexists. split; [done|]. by exists q.
Qed.

(** X19.  Every handler that edits what the current frame shows ends by
    rendering it again: when the slider handler, the drag-release
    handler that added a region, the click handler that removed one, or
    the detection handler returns, the render cache holds under the
    current index the render of the loaded frame with the ledger as the
    handler left it.  The slider handler, which changes every frame,
    leaves no other entry in the cache. *)
Theorem editing_handlers_render_again (ui : ui_t) frame :
  current_frame (FaceBlurUI.video_processor ui) = Some frame →
  let idx := current_frame_idx (FaceBlurUI.video_processor ui) in
  let fresh (ui' : ui_t) :=
    ∃ p, processed_frames (FaceBlurUI.video_processor ui') !! idx = Some p
         ∧ rendered (FaceBlurUI.video_processor ui') idx frame p in
  ((FaceBlurUI.update_blur_params ui).2 = Ok tt →
   fresh (FaceBlurUI.update_blur_params ui).1
   ∧ ∀ j, j ≠ idx →
          processed_frames
            (FaceBlurUI.video_processor (FaceBlurUI.update_blur_params ui).1) !! j = None)
  ∧ (∀ end_x end_y,
       FaceBlurUI.drawing ui = true →
       10 <= (FaceBlurUI.start_x ui `max` end_x) - (FaceBlurUI.start_x ui `min` end_x) →
       10 <= (FaceBlurUI.start_y ui `max` end_y) - (FaceBlurUI.start_y ui `min` end_y) →
       (FaceBlurUI.on_canvas_release end_x end_y ui).2 = Ok tt →
       fresh (FaceBlurUI.on_canvas_release end_x end_y ui).1)
  ∧ (∀ x y,
       is_Some (cap (FaceBlurUI.video_processor ui)) →
       (BlurManager.toggle_region (FaceBlurUI.blur_manager ui) x y
          (detected_faces (FaceBlurUI.video_processor ui))).1 = true →
       (FaceBlurUI.on_canvas_click x y ui).2 = Ok tt →
       fresh (FaceBlurUI.on_canvas_click x y ui).1)
  ∧ ((FaceBlurUI.run_detection ui).2 = Ok tt →
     fresh (FaceBlurUI.run_detection ui).1).
Proof.
  intros Hf idx fresh. subst fresh idx.
  assert (Hshow : ∀ u : ui_t,
            current_frame (FaceBlurUI.video_processor u) = Some frame →
            current_frame_idx (FaceBlurUI.video_processor u)
            = current_frame_idx (FaceBlurUI.video_processor ui) →
            processed_frames (FaceBlurUI.video_processor u)
              !! current_frame_idx (FaceBlurUI.video_processor ui) = None →
            (FaceBlurUI.show_frame u).2 = Ok tt →
            ∃ p, processed_frames (FaceBlurUI.video_processor (FaceBlurUI.show_frame u).1)
                 = <[current_frame_idx (FaceBlurUI.video_processor ui) := p]>
                     (processed_frames (FaceBlurUI.video_processor u))
                 ∧ rendered (FaceBlurUI.video_processor (FaceBlurUI.show_frame u).1)
                     (current_frame_idx (FaceBlurUI.video_processor ui)) frame p).
  { intros u Hfu Hiu Hcu Hok. rewrite <- Hiu in Hcu |- *.
    by destruct (show_frame_renders u frame Hfu Hcu Hok) as (_ & _ & ?). }
  split_and!.
  - unfold FaceBlurUI.update_blur_params.
    destruct (FaceBlurUI.blur_ksize ui mod 2 =? 0); simpl; intros Hok;
      (match type of Hok with
       | (FaceBlurUI.show_frame ?u).2 = _ =>
           destruct (Hshow u Hf eq_refl (lookup_empty _) Hok) as (p & Hp & Hr)
       end);
      (split; [exists p; split; [by rewrite Hp, lookup_insert_eq|done]|]);
      intros j Hj; by rewrite Hp, lookup_insert_ne.
  - intros end_x end_y Hdraw Hx Hy. unfold FaceBlurUI.on_canvas_release.
    rewrite Hdraw. simpl. rewrite Hf.
    rewrite !bool_decide_eq_false_2 by lia. simpl. intros Hok.
    match type of Hok with
    | (FaceBlurUI.show_frame ?u).2 = _ =>
        destruct (Hshow u Hf eq_refl (lookup_delete_eq _ _) Hok) as (p & Hp & Hr)
    end.
    exists p. split; [by rewrite Hp, lookup_insert_eq|done].
  - intros x y [c Hc] Hhit. unfold FaceBlurUI.on_canvas_click.
    rewrite Hc, Hf. unfold FaceBlurUI.blur_manager in Hhit.
    destruct (BlurManager.toggle_region _ x y _) as [result bm]. simpl in Hhit.
    subst result. simpl. intros Hok.
    match type of Hok with
    | (FaceBlurUI.show_frame ?u).2 = _ =>
        destruct (Hshow u Hf eq_refl (lookup_delete_eq _ _) Hok) as (p & Hp & Hr)
    end.
    exists p. split; [by rewrite Hp, lookup_insert_eq|done].
  - unfold FaceBlurUI.run_detection. rewrite Hf.
    unfold detect_and_store. simpl.
    destruct (face_detector_detect_faces frame) as [boxes|e]; simpl; [|done].
    intros Hok.
    match type of Hok with
    | (FaceBlurUI.show_frame ?u).2 = _ =>
        destruct (Hshow u Hf eq_refl (lookup_delete_eq _ _) Hok) as (p & Hp & Hr)
    end.
    exists p. split; [by rewrite Hp, lookup_insert_eq|done].
Qed.

Lemma show_frame_drawing (ui : ui_t) :
  FaceBlurUI.drawing (FaceBlurUI.show_frame ui).1 = FaceBlurUI.drawing ui.
Proof.
  unfold FaceBlurUI.show_frame.
  destruct (current_frame (FaceBlurUI.video_processor ui)); [|done].
  by destruct (process_current_frame (FaceBlurUI.video_processor ui)) as [v [o|e]].
Qed.

Lemma toggle_region_miss (bm : BlurManager.t) x y d :
  Forall (λ r, BlurManager.contains_point x y r = false)
         (default [] (BlurManager.detected_regions bm !! BlurManager.current_frame_idx bm)
          ++ default [] (BlurManager.manual_regions bm !! BlurManager.current_frame_idx bm)) →
  BlurManager.toggle_region bm x y d = (false, bm).
Proof.
  rewrite Forall_app, <- !ToggleFacts.pop_hit_None. intros [Ha Hm].
  unfold BlurManager.toggle_region. by rewrite Ha, Hm.
Qed.

(** X20.  A press on a spot of the image that no region of the current
    frame contains, followed by a release, is a drag: the press removes
    nothing and starts the drag, the release ends it, and the ledger
    gains one manual region on the current frame exactly when the two
    points are at least 10 pixels apart on both axes.  That region is
    the rectangle the two points span, smaller corner first, with the
    slider values, the kernel size made odd; it is appended after the
    manual regions the frame had. *)
Theorem press_then_release_adds_rectangle (ui : ui_t) frame x y end_x end_y :
  let s := FaceBlurUI.video_processor ui in
  is_Some (cap s) →
  current_frame s = Some frame →
  Forall (λ r, BlurManager.contains_point x y r = false)
         (default [] (BlurManager.detected_regions (blur_manager s)
                        !! BlurManager.current_frame_idx (blur_manager s))
          ++ default [] (BlurManager.manual_regions (blur_manager s)
                           !! BlurManager.current_frame_idx (blur_manager s))) →
  let ui1 := (FaceBlurUI.on_canvas_click x y ui).1 in
  let ui2 := (FaceBlurUI.on_canvas_release end_x end_y ui1).1 in
  let i := current_frame_idx s in
  let before := BlurManager.manual_regions (blur_manager s) in
  (FaceBlurUI.on_canvas_click x y ui).2 = Ok tt
  ∧ FaceBlurUI.drawing ui1 = true
  ∧ FaceBlurUI.blur_manager ui1 = blur_manager s
  ∧ FaceBlurUI.drawing ui2 = false
  ∧ BlurManager.manual_regions (FaceBlurUI.blur_manager ui2)
    = if bool_decide (10 <= Z.abs (end_x - x)) && bool_decide (10 <= Z.abs (end_y - y))
      then <[i := default [] (before !! i)
                  ++ [(x `min` end_x, y `min` end_y, x `max` end_x, y `max` end_y,
                       FaceBlurUI.blur_sigma ui, ensure_odd (FaceBlurUI.blur_ksize ui))]]>
             before
      else before.
Proof.
  intros s [c Hc] Hf Hmiss ui1 ui2 i before. subst ui2 ui1 i before s.
  unfold FaceBlurUI.on_canvas_click. rewrite Hc, Hf.
  rewrite (toggle_region_miss _ x y _ Hmiss). simpl.
  split_and!; try done.
  - unfold FaceBlurUI.on_canvas_release. simpl. rewrite Hf.
    repeat case_bool_decide; simpl; try done; apply show_frame_drawing.
  - unfold FaceBlurUI.on_canvas_release. simpl. rewrite Hf.
    destruct (bool_decide (10 <= Z.abs (end_x - x))) eqn:Hx;
      [apply bool_decide_eq_true in Hx|apply bool_decide_eq_false in Hx];
      (destruct (bool_decide (10 <= Z.abs (end_y - y))) eqn:Hy;
       [apply bool_decide_eq_true in Hy|apply bool_decide_eq_false in Hy]);
      simpl.
    + rewrite !bool_decide_eq_false_2 by lia. simpl.
      match goal with
      | |- context [FaceBlurUI.show_frame ?u] =>
          pose proof (LedgerWriteFacts.show_frame_ledger u) as (H1 & _)
      end.
      etrans; [apply H1|].
      apply LedgerWriteFacts.add_manual_region_to_frame_regions.
    + rewrite (bool_decide_eq_true_2 (y `max` _ - _ < 10)%Z) by lia.
      by rewrite orb_true_r.
    + by rewrite (bool_decide_eq_true_2 (x `max` _ - _ < 10)%Z) by lia.
    + by rewrite (bool_decide_eq_true_2 (x `max` _ - _ < 10)%Z) by lia.
Qed.

Lemma show_frame_keeps_present_detections (ui : ui_t) :
  let s := FaceBlurUI.video_processor ui in
  is_Some (BlurManager.detected_regions (blur_manager s) !! current_frame_idx s) →
  BlurManager.detected_regions (FaceBlurUI.blur_manager (FaceBlurUI.show_frame ui).1)
  = BlurManager.detected_regions (blur_manager s)
  ∧ current_frame_idx (FaceBlurUI.video_processor (FaceBlurUI.show_frame ui).1)
    = current_frame_idx s.
Proof.
  intros s [l Hl]. subst s.
  unfold FaceBlurUI.show_frame, FaceBlurUI.blur_manager.
  destruct (current_frame (FaceBlurUI.video_processor ui)) as [frame|] eqn:Hf; [|done].
  unfold process_current_frame. rewrite Hf.
  destruct (processed_frames _ !! _); [done|].
  assert (Hm : materialize_detected (FaceBlurUI.video_processor ui)
               = FaceBlurUI.video_processor ui).
  { unfold materialize_detected. rewrite Hl. by destruct (detected_faces _). }
  rewrite Hm, CompositorFacts.apply_blur_value.
  by destruct (BlurManager.blur_each frame _).
Qed.

(** X21.  [maintain_prev_box] on a frame that has automatic regions
    carries them to the next frame and thereby pre-empts the detector
    there: when the handler returns, however it returns, the automatic
    regions of the next frame are the ones that frame already had
    followed by those of the current frame that were missing, and no
    detection of the next frame has been added to them; no other frame's
    automatic regions change.  On the last frame the handler changes
    nothing. *)
Theorem maintain_prev_box_carries_and_preempts (ui : ui_t) :
  let s := FaceBlurUI.video_processor ui in
  let i := current_frame_idx s in
  let ui' := (FaceBlurUI.maintain_prev_box ui).1 in
  BlurManager.current_frame_idx (blur_manager s) = i →
  (frame_count s <= i + 1 → ui' = ui)
  ∧ (∀ l, is_Some (cap s) → i + 1 < frame_count s →
          BlurManager.detected_regions (blur_manager s) !! i = Some l → l ≠ [] →
          BlurManager.detected_regions (FaceBlurUI.blur_manager ui') !! (i + 1)
          = Some (BlurManager.append_missing l
                    (default [] (BlurManager.detected_regions (blur_manager s) !! (i + 1))))
          ∧ ∀ k, k ≠ i + 1 →
                 BlurManager.detected_regions (FaceBlurUI.blur_manager ui') !! k
                 = BlurManager.detected_regions (blur_manager s) !! k).
Proof.
  intros s i ui' Hsync. subst ui' i s. split.
  - intros Hlast. unfold FaceBlurUI.maintain_prev_box.
    destruct (cap _); [|done]. by rewrite bool_decide_eq_true_2 by lia.
  - intros l [c Hc] Hnext Hl Hne.
    set (i := current_frame_idx (FaceBlurUI.video_processor ui)) in *.
    set (m := BlurManager.detected_regions (blur_manager (FaceBlurUI.video_processor ui))) in *.
    assert (Hgoal : BlurManager.detected_regions
                      (FaceBlurUI.blur_manager (FaceBlurUI.maintain_prev_box ui).1)
                    = BlurManager.copy_collection m i (i + 1)).
    { unfold FaceBlurUI.maintain_prev_box. rewrite Hc. fold i.
      rewrite bool_decide_eq_false_2 by lia.
      unfold BlurManager.copy_regions_to_next_frame. rewrite Hsync. fold m.
      assert (Hhas : BlurManager.has_regions m i = true).
      { unfold BlurManager.has_regions. rewrite Hl. apply bool_decide_eq_true.
        destruct l; [done|simpl; lia]. }
      rewrite Hhas, orb_true_r. simpl.
      match goal with
      | |- context [get_frame (i + 1) ?v] =>
          pose proof (get_frame_same (i + 1) v) as Hsame;
          pose proof (get_frame_idx (i + 1) v) as Hidx;
          destruct (get_frame (i + 1) v) as [v' [o|e]] eqn:Hg
      end; simpl in Hsame, Hidx.
      all: assert (Hdet : BlurManager.detected_regions (blur_manager v')
                          = BlurManager.copy_collection m i (i + 1))
        by (unfold same_setup, setup in Hsame; simpl in Hsame;
            injection Hsame as _ _ _ _ _ _ Hd _ _ _; rewrite Hd;
            by destruct (BlurManager.has_regions (BlurManager.manual_regions _) _);
              simpl; rewrite ?Hsync).
      2: done.
      destruct (show_frame_keeps_present_detections
                  (FaceBlurUI.set_video_processor v' ui)) as [Hs _]; [|by rewrite Hs].
      simpl. rewrite Hdet, Hidx.
      match goal with
      | |- context [readable ?v ?j] => destruct (readable v j)
      end.
      - rewrite BlurManagerFacts.copy_collection_next by lia. eauto.
      - rewrite BlurManagerFacts.copy_collection_other by lia. fold i. eauto. }
    rewrite Hgoal. split.
    + rewrite BlurManagerFacts.copy_collection_next by lia. by rewrite Hl.
    + intros k Hk. by apply BlurManagerFacts.copy_collection_other.
Qed.

Lemma show_frame_detection_fields (ui : ui_t) :
  let s := FaceBlurUI.video_processor ui in
  let s' := FaceBlurUI.video_processor (FaceBlurUI.show_frame ui).1 in
  detector_calls s' = detector_calls s
  ∧ detection_results s' = detection_results s
  ∧ detected_faces s' = detected_faces s.
Proof.
  unfold FaceBlurUI.show_frame.
  destruct (current_frame (FaceBlurUI.video_processor ui)) as [frame|] eqn:Hf; [|done].
  unfold process_current_frame. rewrite Hf.
  destruct (processed_frames _ !! _); [done|].
  destruct (RenderFacts.materialize_detected_fields (FaceBlurUI.video_processor ui))
    as (_ & _ & _ & Hd & Hr & Hc & _).
  rewrite CompositorFacts.apply_blur_value.
  by destruct (BlurManager.blur_each frame _); simpl; rewrite Hd, Hr, Hc.
Qed.

(** X22.  [run_detection] asks the detector about the loaded frame
    every time, whether or not a detection of it is cached, and the
    answer replaces the cached one and becomes the current detection.
    The cached detection is dropped before the detector is asked: if
    the detector raises, the frame is left with none, and nothing else
    has changed.  A frame whose detections have already become
    automatic regions keeps the regions it has: the new answer does not
    reach the ledger. *)
Theorem run_detection_asks_again (ui : ui_t) frame :
  let s := FaceBlurUI.video_processor ui in
  let i := current_frame_idx s in
  let s' := FaceBlurUI.video_processor (FaceBlurUI.run_detection ui).1 in
  current_frame s = Some frame →
  detector_calls s' = detector_calls s ++ [frame]
  ∧ match face_detector_detect_faces frame with
    | Ok boxes =>
        detection_results s' = <[i := boxes]> (detection_results s)
        ∧ detected_faces s' = boxes
    | Raise e =>
        (FaceBlurUI.run_detection ui).2 = Raise e
        ∧ detection_results s' = delete i (detection_results s)
        ∧ s' = set_detection_results (delete i (detection_results s))
                 (log_detector_call frame s)
    end
  ∧ (is_Some (BlurManager.detected_regions (blur_manager s) !! i) →
     BlurManager.detected_regions (blur_manager s')
     = BlurManager.detected_regions (blur_manager s)).
Proof.
  intros s i s' Hf. subst s' i s.
  unfold FaceBlurUI.run_detection. rewrite Hf. unfold detect_and_store. simpl.
  destruct (face_detector_detect_faces frame) as [boxes|e]; simpl; [|done].
  match goal with
  | |- context [FaceBlurUI.show_frame ?u] =>
      pose proof (show_frame_detection_fields u) as (Hc & Hr & Hd);
      pose proof (show_frame_keeps_present_detections u) as Hk
  end.
  simpl in Hc, Hr, Hd, Hk. rewrite Hc, Hr, Hd.
  split_and!; [done|by rewrite insert_delete_eq|done|].
  intros Hsome. exact (proj1 (Hk Hsome)).
Qed.

Lemma show_frame_cached (ui : ui_t) frame p :
  current_frame (FaceBlurUI.video_processor ui) = Some frame →
  processed_frames (FaceBlurUI.video_processor ui)
    !! current_frame_idx (FaceBlurUI.video_processor ui) = Some p →
  FaceBlurUI.video_processor (FaceBlurUI.show_frame ui).1 = FaceBlurUI.video_processor ui.
Proof.
  intros Hf Hp. unfold FaceBlurUI.show_frame, process_current_frame.
  by rewrite Hf, Hp.
Qed.

(** Moving onto a frame whose render is cached, without touching the
    cache: the render stays, and so do the regions. *)
Lemma get_then_show_cached (ui : ui_t) j frame p :
  let s := FaceBlurUI.video_processor ui in
  readable s j = Some frame →
  processed_frames s !! j = Some p →
  let s' := FaceBlurUI.video_processor (FaceBlurUI.on_slider_change j ui).1 in
  current_frame_idx s' = j
  ∧ processed_frames s' = processed_frames s
  ∧ BlurManager.detected_regions (blur_manager s')
    = BlurManager.detected_regions (blur_manager s)
  ∧ BlurManager.manual_regions (blur_manager s')
    = BlurManager.manual_regions (blur_manager s).
Proof.
  intros s Hr Hp s'. subst s' s. unfold FaceBlurUI.on_slider_change.
  pose proof (get_frame_position j _ frame Hr) as (Hi & Hf & _).
  pose proof (ExportFacts.get_frame_processed_frames j (FaceBlurUI.video_processor ui))
    as Hpf.
  pose proof (get_frame_same j (FaceBlurUI.video_processor ui)) as Hsame.
  unfold same_setup, setup in Hsame. injection Hsame as _ _ _ _ _ Hm Hd _ _ _.
  destruct (get_frame j (FaceBlurUI.video_processor ui)) as [v [o|e]];
    simpl in *; [|done].
  rewrite (show_frame_cached (FaceBlurUI.set_video_processor v ui) frame p);
    simpl; [done|done|by rewrite Hi, Hpf].
Qed.

(** X23.  Going forward renders afresh, going back or using the slider
    does not.  When [next_frame] of the interface has moved to the next
    frame and returned, the render cache holds under the new index the
    render of that frame with the ledger as it is, whatever was cached
    for it before.  [prev_frame] and [on_slider_change], arriving on a
    frame whose render is cached, leave the cache and the regions as
    they are: the cached render is the one shown. *)
Theorem forward_renders_afresh_backward_reuses (ui : ui_t) :
  let s := FaceBlurUI.video_processor ui in
  let i := current_frame_idx s in
  let kept (ui' : ui_t) :=
    processed_frames (FaceBlurUI.video_processor ui') = processed_frames s
    ∧ BlurManager.detected_regions (FaceBlurUI.blur_manager ui')
      = BlurManager.detected_regions (blur_manager s)
    ∧ BlurManager.manual_regions (FaceBlurUI.blur_manager ui')
      = BlurManager.manual_regions (blur_manager s) in
  (∀ frame1,
     readable s (i + 1) = Some frame1 →
     (FaceBlurUI.next_frame ui).2 = Ok tt →
     let s' := FaceBlurUI.video_processor (FaceBlurUI.next_frame ui).1 in
     current_frame_idx s' = i + 1
     ∧ ∃ p, processed_frames s' !! (i + 1) = Some p ∧ rendered s' (i + 1) frame1 p)
  ∧ (∀ frame0 p,
       readable s (i - 1) = Some frame0 →
       processed_frames s !! (i - 1) = Some p →
       current_frame_idx (FaceBlurUI.video_processor (FaceBlurUI.prev_frame ui).1) = i - 1
       ∧ kept (FaceBlurUI.prev_frame ui).1)
  ∧ (∀ j frame p,
       readable s j = Some frame →
       processed_frames s !! j = Some p →
       current_frame_idx (FaceBlurUI.video_processor (FaceBlurUI.on_slider_change j ui).1) = j
       ∧ kept (FaceBlurUI.on_slider_change j ui).1).
Proof.
  intros s i kept. subst kept i s. split_and!.
  - intros frame1 Hr. unfold FaceBlurUI.next_frame, next_frame.
    pose proof (NavigationFacts.readable_in_range _ _ _ Hr) as Hrange.
    rewrite bool_decide_eq_true_2 by lia.
    pose proof (get_frame_position _ _ frame1 Hr) as (Hi & Hf & _).
    pose proof (get_frame_readable (current_frame_idx (FaceBlurUI.video_processor ui) + 1)
                  (FaceBlurUI.video_processor ui)) as Hres.
    destruct (get_frame _ (FaceBlurUI.video_processor ui)) as [v [o|e]];
      simpl in *; [|done].
    rewrite Hr in Hres. subst o. rewrite Hi. intros Hok.
    match type of Hok with
    | (FaceBlurUI.show_frame ?u).2 = _ =>
        destruct (show_frame_renders u frame1) as (Hi' & _ & p & Hp & Hrend);
          [done|simpl; rewrite Hi; apply lookup_delete_eq|done|]
    end.
    simpl in Hi', Hp, Hrend. rewrite Hi in Hi', Hp, Hrend.
    split; [done|]. exists p. split; [by rewrite Hp, lookup_insert_eq|done].
  - intros frame0 p Hr Hp.
    pose proof (get_then_show_cached ui _ frame0 p Hr Hp) as H.
    pose proof (NavigationFacts.readable_in_range _ _ _ Hr) as Hrange.
    unfold FaceBlurUI.prev_frame, prev_frame.
    rewrite bool_decide_eq_true_2 by lia.
    unfold FaceBlurUI.on_slider_change in H.
    pose proof (get_frame_readable (current_frame_idx (FaceBlurUI.video_processor ui) - 1)
                  (FaceBlurUI.video_processor ui)) as Hres.
    destruct (get_frame _ (FaceBlurUI.video_processor ui)) as [v [o|e]];
      simpl in *; [|done].
    rewrite Hr in Hres. by subst o.
  - intros j frame p Hr Hp. apply (get_then_show_cached ui j frame p Hr Hp).
Qed.

End Facts.

(** The detection handler on the first frame of ["clip.mp4"]. *)
Lemma editing_handlers_render_again_witness :
  let s := FaceBlurUI.video_processor Fixture.ui in
  let ui' := (FaceBlurUI.run_detection Fixture.ui).1 in
  ∃ p, processed_frames (FaceBlurUI.video_processor ui') !! current_frame_idx s = Some p
       ∧ rendered (FaceBlurUI.video_processor ui') (current_frame_idx s)
           (Fixture.Raw 0) p.
Proof.
  refine (proj2 (proj2 (proj2
            (editing_handlers_render_again Fixture.ui (Fixture.Raw 0) _))) _).
  - vm_compute. reflexivity.
  - vm_compute. reflexivity.
Defined.

(** A drag from [(100, 100)] to [(150, 80)] on the first frame of
    ["clip.mp4"], with the kernel-size slider on 30. *)
Lemma press_then_release_adds_rectangle_witness :
  let s := FaceBlurUI.video_processor Fixture.ui in
  let ui1 := (FaceBlurUI.on_canvas_click 100 100 Fixture.ui).1 in
  let ui2 := (FaceBlurUI.on_canvas_release 150 80 ui1).1 in
  let i := current_frame_idx s in
  let before := BlurManager.manual_regions (blur_manager s) in
  (FaceBlurUI.on_canvas_click 100 100 Fixture.ui).2 = Ok tt
  ∧ FaceBlurUI.drawing ui1 = true
  ∧ FaceBlurUI.blur_manager ui1 = blur_manager s
  ∧ FaceBlurUI.drawing ui2 = false
  ∧ BlurManager.manual_regions (FaceBlurUI.blur_manager ui2)
    = if bool_decide (10 <= Z.abs (150 - 100)) && bool_decide (10 <= Z.abs (80 - 100))
      then <[i := default [] (before !! i)
                  ++ [(100 `min` 150, 100 `min` 80, 100 `max` 150, 100 `max` 80,
                       FaceBlurUI.blur_sigma Fixture.ui,
                       ensure_odd (FaceBlurUI.blur_ksize Fixture.ui))]]>
             before
      else before.
Proof.
  refine (press_then_release_adds_rectangle Fixture.ui (Fixture.Raw 0) 100 100 150 80
            _ _ _).
  - vm_compute. eauto.
  - vm_compute. reflexivity.
  - vm_compute. constructor.
Defined.

(** [maintain_prev_box] on the first frame of ["clip.mp4"], once it has
    been shown and its detection has become an automatic region. *)
Lemma maintain_prev_box_carries_and_preempts_witness :
  let ui := (FaceBlurUI.show_frame Fixture.ui).1 in
  let s := FaceBlurUI.video_processor ui in
  let i := current_frame_idx s in
  let ui' := (FaceBlurUI.maintain_prev_box ui).1 in
  BlurManager.detected_regions (FaceBlurUI.blur_manager ui') !! (i + 1)
  = Some (BlurManager.append_missing [(10, 10, 60, 60, 30, 31)]
            (default [] (BlurManager.detected_regions (blur_manager s) !! (i + 1))))
  ∧ ∀ k, k ≠ i + 1 →
         BlurManager.detected_regions (FaceBlurUI.blur_manager ui') !! k
         = BlurManager.detected_regions (blur_manager s) !! k.
Proof.
  refine (proj2 (maintain_prev_box_carries_and_preempts
                   (FaceBlurUI.show_frame Fixture.ui).1 _)
            [(10, 10, 60, 60, 30, 31)] _ _ _ _).
  - vm_compute. reflexivity.
  - vm_compute. eauto.
  - vm_compute. reflexivity.
  - vm_compute. reflexivity.
  - discriminate.
Defined.

(** [run_detection] on the first frame of ["clip.mp4"], whose
    detection [open_video] has cached. *)
Lemma run_detection_asks_again_witness :
  let s := FaceBlurUI.video_processor Fixture.ui in
  let i := current_frame_idx s in
  let s' := FaceBlurUI.video_processor (FaceBlurUI.run_detection Fixture.ui).1 in
  detector_calls s' = detector_calls s ++ [Fixture.Raw 0]
  ∧ match face_detector_detect_faces (Fixture.Raw 0) with
    | Ok boxes =>
        detection_results s' = <[i := boxes]> (detection_results s)
        ∧ detected_faces s' = boxes
    | Raise e =>
        (FaceBlurUI.run_detection Fixture.ui).2 = Raise e
        ∧ detection_results s' = delete i (detection_results s)
        ∧ s' = set_detection_results (delete i (detection_results s))
                 (log_detector_call (Fixture.Raw 0) s)
    end
  ∧ (is_Some (BlurManager.detected_regions (blur_manager s) !! i) →
     BlurManager.detected_regions (blur_manager s')
     = BlurManager.detected_regions (blur_manager s)).
Proof.
  refine (run_detection_asks_again Fixture.ui (Fixture.Raw 0) _).
  vm_compute. reflexivity.
Defined.

(** [next_frame] of the interface from the first frame of
    ["clip.mp4"]. *)
Lemma forward_renders_afresh_backward_reuses_witness :
  let s := FaceBlurUI.video_processor Fixture.ui in
  let i := current_frame_idx s in
  let s' := FaceBlurUI.video_processor (FaceBlurUI.next_frame Fixture.ui).1 in
  current_frame_idx s' = i + 1
  ∧ ∃ p, processed_frames s' !! (i + 1) = Some p
         ∧ rendered s' (i + 1) (Fixture.Raw 1) p.
Proof.
  refine (proj1 (forward_renders_afresh_backward_reuses Fixture.ui)
            (Fixture.Raw 1) _ _).
  - vm_compute. reflexivity.
  - vm_compute. reflexivity.
Defined.

End HandlerFacts.
